(** * simretina.retina: a wrapper around cv2.bioinspired

    A shallow embedding of [simretina/retina.py] and the properties its
    specification states about it.

    The module is four free functions over one externally owned, stateful
    object (the retina handle of [cv2.bioinspired]).  The embedding keeps
    that split:
    - numpy arrays are values (a shape and the elements in C order), and
      [np.tile] / [np.transpose] are functions on them;
    - exceptions are an error type;
    - the native library is a parameter: an opaque state, an opaque type of
      handles and the five entry points the wrapper calls;
    - the wrapper functions run in a state-and-exception monad over a
      world made of the library state and the log of the library calls
      issued so far. *)

From Stdlib Require Import List Arith Bool String Ascii ZArith Lia PeanoNat.
Import ListNotations.

Set Warnings "-register-all".

Local Open Scope string_scope.
Local Open Scope list_scope.
Local Open Scope nat_scope.

(* ================================================================== *)
(** ** numpy arrays *)

Module Np.

(** An [ndarray]: its [shape] and its elements in row-major (C) order.
    The element type plays no role in the wrapper; pixels are integers. *)
Record ndarray : Type := mk_ndarray { shape : list nat; data : list Z }.

(** [a.ndim] *)
Definition ndim (a : ndarray) : nat := List.length (shape a).

(** Number of elements of an array of shape [s] ([a.size]). *)
Definition size_of (s : list nat) : nat := fold_right Nat.mul 1 s.

(** The arrays numpy can build: as many elements as the shape says. *)
Definition wf (a : ndarray) : Prop := List.length (data a) = size_of (shape a).

(** [np.unravel_index(k, s)]: the multi-index of flat position [k]. *)
Fixpoint unravel (s : list nat) (k : nat) : list nat :=
  match s with
  | [] => []
  | _ :: s' => k / size_of s' :: unravel s' (k mod size_of s')
  end.

(** [np.ravel_multi_index(idx, s)]: the flat position of a multi-index. *)
Fixpoint ravel (s idx : list nat) : nat :=
  match s, idx with
  | _ :: s', i :: idx' => i * size_of s' + ravel s' idx'
  | _, _ => 0
  end.

(** A multi-index is inside shape [s]. *)
Definition in_bounds (idx s : list nat) : Prop := Forall2 lt idx s.

(** [a[idx]] for a full multi-index. *)
Definition item (a : ndarray) (idx : list nat) : Z :=
  nth (ravel (shape a) idx) (data a) 0%Z.

(** Build an array of shape [s] from its element function on flat
    positions. *)
Definition build (s : list nat) (f : nat -> Z) : ndarray :=
  {| shape := s; data := map f (seq 0 (size_of s)) |}.

Fixpoint zip_with {A B C} (f : A -> B -> C) (l : list A) (l' : list B) : list C :=
  match l, l' with
  | x :: t, y :: t' => f x y :: zip_with f t t'
  | _, _ => []
  end.

(** Prepend [x] until the list has [n] elements. *)
Definition pad_left {A} (x : A) (n : nat) (l : list A) : list A :=
  repeat x (n - List.length l) ++ l.

(** [np.tile(a, reps)].  The shorter of [a.shape] and [reps] is promoted
    by prepending ones; the result has shape [a.shape * reps] and repeats
    [a] along every axis: [out[idx] = a[idx mod a.shape]]. *)
Definition tile (a : ndarray) (reps : list nat) : ndarray :=
  let d := Nat.max (List.length reps) (ndim a) in
  let s := pad_left 1 d (shape a) in
  let r := pad_left 1 d reps in
  let s' := zip_with Nat.mul s r in
  build s' (fun k =>
    nth (ravel s (zip_with Nat.modulo (unravel s' k) s)) (data a) 0%Z).

(** Position of [d] in [axes] (the inverse permutation). *)
Fixpoint index_of (d : nat) (axes : list nat) : nat :=
  match axes with
  | [] => 0
  | x :: t => if x =? d then 0 else S (index_of d t)
  end.

(** [axes] is a permutation of [range(n)]. *)
Definition is_perm_of_range (axes : list nat) (n : nat) : bool :=
  (List.length axes =? n) && forallb (fun d => existsb (Nat.eqb d) axes) (seq 0 n).

(** [np.transpose(a, axes)] for a valid [axes]: axis [j] of the result is
    axis [axes[j]] of [a], so [out[idx'] = a[idx]] with
    [idx[axes[j]] = idx'[j]]. *)
Definition transpose_axes (a : ndarray) (axes : list nat) : ndarray :=
  let s := shape a in
  let s' := map (fun ax => nth ax s 0) axes in
  build s' (fun k =>
    let idx' := unravel s' k in
    let idx := map (fun d => nth (index_of d axes) idx' 0) (seq 0 (List.length s)) in
    nth (ravel s idx) (data a) 0%Z).

(** [a[..., c]]: index [c] on the last axis. *)
Definition take_last (c : nat) (a : ndarray) : ndarray :=
  let s := removelast (shape a) in
  let d := last (shape a) 1 in
  build s (fun k => nth (k * d + c) (data a) 0%Z).

End Np.

(* ================================================================== *)
(** ** Python values and exceptions *)

Module Py.

(** The Python objects the wrapper can be handed where it inspects its
    argument at run time ([len], [isinstance], subscripts, [for]).
    [VGenerator items] is a generator that will yield [items]: it can be
    iterated, but has no length and no subscripts. *)
Inductive value : Type :=
| VNone
| VInt (n : Z)
| VStr (s : string)
| VArray (a : Np.ndarray)
| VTuple (items : list value)
| VList (items : list value)
| VGenerator (items : list value).

(** Exceptions.  [ValueError] is the only one the wrapper raises itself;
    [TypeError], [IndexError] and [UnboundLocalError] come from the
    interpreter, [CvError] is whatever the native library raises. *)
Inductive exn : Type :=
| ValueError (msg : string)
| TypeError (msg : string)
| IndexError (msg : string)
| UnboundLocalError (name : string)
| CvError (msg : string).

Inductive result (A : Type) : Type :=
| Ok (a : A)
| Raise (e : exn).

Arguments Ok {A} a.
Arguments Raise {A} e.

Definition is_ValueError (e : exn) : bool :=
  match e with ValueError _ => true | _ => false end.

(** [len(v)] *)
Definition len (v : value) : result nat :=
  match v with
  | VTuple l | VList l => Ok (List.length l)
  | VStr s => Ok (String.length s)
  | VArray a =>
      match Np.shape a with
      | [] => Raise (TypeError "len() of unsized object")
      | n :: _ => Ok n
      end
  | VNone | VInt _ | VGenerator _ => Raise (TypeError "object has no len()")
  end.

(** [isinstance(v, list)] *)
Definition isinstance_list (v : value) : bool :=
  match v with VList _ => true | _ => false end.

(** [v[i]] for a non-negative integer literal [i]. *)
Definition subscript (v : value) (i : nat) : result value :=
  match v with
  | VTuple l | VList l =>
      match nth_error l i with
      | Some x => Ok x
      | None => Raise (IndexError "index out of range")
      end
  | VStr s =>
      match String.get i s with
      | Some c => Ok (VStr (String c EmptyString))
      | None => Raise (IndexError "string index out of range")
      end
  | VArray a =>
      match Np.shape a with
      | [] => Raise (IndexError "too many indices for array")
      | n :: s' =>
          if i <? n then
            Ok (VArray {| Np.shape := s';
                          Np.data := firstn (Np.size_of s')
                                       (skipn (i * Np.size_of s') (Np.data a)) |})
          else Raise (IndexError "index is out of bounds")
      end
  | VNone | VInt _ | VGenerator _ => Raise (TypeError "object is not subscriptable")
  end.

Fixpoint sequence {A} (l : list (result A)) : result (list A) :=
  match l with
  | [] => Ok []
  | Ok x :: t =>
      match sequence t with
      | Ok r => Ok (x :: r)
      | Raise e => Raise e
      end
  | Raise e :: _ => Raise e
  end.

(** The items a [for] loop over [v] visits. *)
Definition iter (v : value) : result (list value) :=
  match v with
  | VTuple l | VList l | VGenerator l => Ok l
  | VStr _ | VArray _ =>
      match len v with
      | Ok n => sequence (map (subscript v) (seq 0 n))
      | Raise _ => Raise (TypeError "iteration over a 0-d array")
      end
  | VNone | VInt _ => Raise (TypeError "object is not iterable")
  end.

End Py.

Import Py.

(* ================================================================== *)
(** ** grey2color *)

(** [np.transpose(a, axes)]: numpy rejects an [axes] that is not a
    permutation of the axes of [a]. *)
Definition np_transpose (a : Np.ndarray) (axes : list nat) : result Np.ndarray :=
  if Np.is_perm_of_range axes (Np.ndim a) then Ok (Np.transpose_axes a axes)
  else Raise (ValueError "axes don't match array").

(** [grey2color(frame)]: transform a grey frame to a color frame by
    duplication.  A function of its argument alone: it calls nothing but
    [np.tile] and [np.transpose], which build new arrays. *)
Definition grey2color (frame : Np.ndarray) : result Np.ndarray :=
  if negb (Np.ndim frame =? 2) then
    Raise (ValueError "Input frame is not a grey frame.")
  else
    np_transpose (Np.tile frame [3; 1; 1]) [1; 2; 0].

(* ================================================================== *)
(** ** The native library *)

(** Outcome of a call into [cv2.bioinspired]. *)
Inductive cv_result (A : Type) : Type :=
| CvOk (a : A)
| CvFail (msg : string).

Arguments CvOk {A} a.
Arguments CvFail {A} msg.

(** [cv2.bioinspired], as far as the wrapper uses it.  [lib_state] holds
    every retina object the library owns, [retina] is a reference to one
    of them.  The constructor and [run] take an argument the library may
    reject; the two read calls and the reset take none. *)
Class Bioinspired : Type := {
  lib_state : Type;
  retina : Type;
  createRetina : value -> lib_state -> cv_result retina * lib_state;
  run : retina -> value -> lib_state -> cv_result unit * lib_state;
  getParvo : retina -> lib_state -> Np.ndarray;
  getMagno : retina -> lib_state -> Np.ndarray;
  clearBuffers : retina -> lib_state -> lib_state
}.

(** One call into the library. *)
Inductive call `{Bioinspired} : Type :=
| CallCreateRetina (inputSize : value)
| CallRun (r : retina) (frame : value)
| CallGetParvo (r : retina)
| CallGetMagno (r : retina)
| CallClearBuffers (r : retina).

(** The state a wrapper function runs in: the library's own state and the
    calls made into it so far, oldest first. *)
Record world `{Bioinspired} : Type := mk_world {
  lib : lib_state;
  calls : list call
}.

Arguments mk_world {_} lib calls.

(** Computations that may raise and may call the library.  The world
    survives an exception: what the library was made to do stays done. *)
Definition M `{Bioinspired} (A : Type) : Type := world -> result A * world.

Definition ret `{Bioinspired} {A} (a : A) : M A := fun w => (Ok a, w).

Definition raise `{Bioinspired} {A} (e : exn) : M A := fun w => (Raise e, w).

Definition bind `{Bioinspired} {A B} (m : M A) (k : A -> M B) : M B :=
  fun w =>
    match m w with
    | (Ok a, w') => k a w'
    | (Raise e, w') => (Raise e, w')
    end.

(** A computation that touches no state. *)
Definition pure_call `{Bioinspired} {A} (r : result A) : M A := fun w => (r, w).

Declare Scope py_scope.
Delimit Scope py_scope with py.
Notation "x <- m ;; k" := (bind m (fun x => k))
  (at level 100, m at next level, right associativity) : py_scope.
Notation "m ;;; k" := (bind m (fun _ => k))
  (at level 100, right associativity) : py_scope.
Local Open Scope py_scope.

(** The call log of [w] with [c] added at its end. *)
Definition log `{Bioinspired} (c : call) (w : world) : list call := calls w ++ [c].

Definition lift_cv `{Bioinspired} {A} (r : cv_result A) : result A :=
  match r with
  | CvOk a => Ok a
  | CvFail msg => Raise (CvError msg)
  end.

(** [bioinspired.createRetina(inputSize)] *)
Definition bioinspired_createRetina `{Bioinspired} (inputSize : value) : M retina :=
  fun w =>
    let (r, s) := createRetina inputSize (lib w) in
    (lift_cv r, mk_world s (log (CallCreateRetina inputSize) w)).

(** [retina.run(frame)] *)
Definition retina_run `{Bioinspired} (r : retina) (frame : value) : M unit :=
  fun w =>
    let (res, s) := run r frame (lib w) in
    (lift_cv res, mk_world s (log (CallRun r frame) w)).

(** [retina.getParvo()] *)
Definition retina_getParvo `{Bioinspired} (r : retina) : M Np.ndarray :=
  fun w => (Ok (getParvo r (lib w)), mk_world (lib w) (log (CallGetParvo r) w)).

(** [retina.getMagno()] *)
Definition retina_getMagno `{Bioinspired} (r : retina) : M Np.ndarray :=
  fun w => (Ok (getMagno r (lib w)), mk_world (lib w) (log (CallGetMagno r) w)).

(** [retina.clearBuffers()] *)
Definition retina_clearBuffers `{Bioinspired} (r : retina) : M unit :=
  fun w => (Ok tt, mk_world (clearBuffers r (lib w)) (log (CallClearBuffers r) w)).

(* ================================================================== *)
(** ** The wrapper: simretina/retina.py *)

(** [init_retina(size)]: initialize a retina for a receptive field of
    [size = (height, width)]. *)
Definition init_retina `{Bioinspired} (size : value) : M retina :=
  n <- pure_call (len size) ;;
  if negb (n =? 2) then
    raise (ValueError "Invalid size setting.")
  else
    size_1 <- pure_call (subscript size 1) ;;
    size_0 <- pure_call (subscript size 0) ;;
    bioinspired_createRetina (VTuple [size_1; size_0]).

(** [clear_buffers(retina)]: open the eyes after a long period. *)
Definition clear_buffers `{Bioinspired} (retina0 : retina) : M unit :=
  retina_clearBuffers retina0.

(** [get_opl_frame(retina, frame, get_parvo, get_magno, color_mode)] *)
Definition get_opl_frame `{Bioinspired} (retina0 : retina) (frame : value)
    (get_parvo get_magno : bool) (color_mode : string) : M value :=
  retina_run retina0 frame ;;;
  parvo_frame <- retina_getParvo retina0 ;;
  magno_frame <- retina_getMagno retina0 ;;
  parvo_frame <- (if String.eqb color_mode "grey"
                  then pure_call (grey2color parvo_frame)
                  else ret parvo_frame) ;;
  magno_frame <- pure_call (grey2color magno_frame) ;;
  if negb get_parvo && get_magno then
    ret (VArray magno_frame)
  else if get_parvo && negb get_magno then
    ret (VArray parvo_frame)
  else if get_parvo && get_magno then
    ret (VTuple [VArray parvo_frame; VArray magno_frame])
  else
    ret VNone.

(** A local variable holding a list: unbound until it is assigned. *)
Definition local_list : Type := option (list value).

(** [var.append(x)] *)
Definition append (name : string) (var : local_list) (x : value) : result local_list :=
  match var with
  | Some l => Ok (Some (l ++ [x]))
  | None => Raise (UnboundLocalError name)
  end.

(** Read a local variable. *)
Definition load (name : string) (var : local_list) : result value :=
  match var with
  | Some l => Ok (VList l)
  | None => Raise (UnboundLocalError name)
  end.

(** [for x in items: st = body(x, st)] *)
Fixpoint for_each `{Bioinspired} {A S} (items : list A) (body : A -> S -> M S) (st : S) : M S :=
  match items with
  | [] => ret st
  | x :: rest => st' <- body x st ;; for_each rest body st'
  end.

(** The body of the loop of [get_opl_frames], on the two accumulators
    [(parvo_frames, magno_frames)]. *)
Definition get_opl_frames_body `{Bioinspired} (retina0 : retina)
    (get_parvo get_magno : bool) (color_mode : string)
    (frame : value) (acc : local_list * local_list) : M (local_list * local_list) :=
  let (parvo_frames, magno_frames) := acc in
  out_frames <- get_opl_frame retina0 frame get_parvo get_magno color_mode ;;
  if get_parvo && get_magno then
    out_0 <- pure_call (subscript out_frames 0) ;;
    parvo_frames <- pure_call (append "parvo_frames" parvo_frames out_0) ;;
    out_1 <- pure_call (subscript out_frames 1) ;;
    magno_frames <- pure_call (append "magno_frames" magno_frames out_1) ;;
    ret (parvo_frames, magno_frames)
  else if get_parvo && negb get_magno then
    parvo_frames <- pure_call (append "parvo_frames" parvo_frames out_frames) ;;
    ret (parvo_frames, magno_frames)
  else if negb get_parvo && get_magno then
    magno_frames <- pure_call (append "magno_frames" magno_frames out_frames) ;;
    ret (parvo_frames, magno_frames)
  else
    ret (parvo_frames, magno_frames).

(** [get_opl_frames(retina, frames, get_parvo, get_magno, reopen_eye,
    color_mode)]: parvo and magno frames of a sequence of frames. *)
Definition get_opl_frames `{Bioinspired} (retina0 : retina) (frames : value)
    (get_parvo get_magno reopen_eye : bool) (color_mode : string) : M value :=
  n <- pure_call (len frames) ;;
  if (n =? 0) || negb (isinstance_list frames) then
    raise (ValueError "No video frame is entered")
  else
    (if reopen_eye then clear_buffers retina0 else ret tt) ;;;
    let parvo_frames : local_list := if get_parvo then Some [] else None in
    let magno_frames : local_list := if get_magno then Some [] else None in
    items <- pure_call (iter frames) ;;
    acc <- for_each items
             (get_opl_frames_body retina0 get_parvo get_magno color_mode)
             (parvo_frames, magno_frames) ;;
    let (parvo_frames, magno_frames) := acc : local_list * local_list in
    if get_parvo && get_magno then
      p <- pure_call (load "parvo_frames" parvo_frames) ;;
      m <- pure_call (load "magno_frames" magno_frames) ;;
      ret (VTuple [p; m])
    else if get_parvo && negb get_magno then
      pure_call (load "parvo_frames" parvo_frames)
    else if negb get_parvo && get_magno then
      pure_call (load "magno_frames" magno_frames)
    else
      ret VNone.

(* ================================================================== *)
(** ** Vocabulary of the specification *)

(** The parvo frame after the color-mode step of [get_opl_frame]. *)
Definition convert_parvo (color_mode : string) (p : Np.ndarray) : result Np.ndarray :=
  if String.eqb color_mode "grey" then grey2color p else Ok p.

(** The value [get_opl_frame] returns for the two frames it ends with. *)
Definition dispatch (get_parvo get_magno : bool) (pf mf : Np.ndarray) : value :=
  match get_parvo, get_magno with
  | true, true => VTuple [VArray pf; VArray mf]
  | true, false => VArray pf
  | false, true => VArray mf
  | false, false => VNone
  end.

(** The calls one frame costs, in the order [get_opl_frame] makes them. *)
Definition frame_calls `{Bioinspired} (r : retina) (frame : value) : list call :=
  [CallRun r frame; CallGetParvo r; CallGetMagno r].

(** The call is a [clearBuffers]. *)
Definition is_clear `{Bioinspired} (c : call) : bool :=
  match c with CallClearBuffers _ => true | _ => false end.

(** The library takes every frame of [frames] in turn from state [s], and
    after each one its outputs have the rank the conversions of
    [get_opl_frame] need: a grey magno output, and a grey parvo output
    when the color mode asks for its conversion. *)
Fixpoint accepts `{Bioinspired} (r : retina) (color_mode : string)
    (frames : list value) (s : lib_state) : bool :=
  match frames with
  | [] => true
  | frame :: rest =>
      match run r frame s with
      | (CvOk _, s') =>
          (Np.ndim (getMagno r s') =? 2)
          && (negb (String.eqb color_mode "grey") || (Np.ndim (getParvo r s') =? 2))
          && accepts r color_mode rest s'
      | (CvFail _, _) => false
      end
  end.

(** [processed r cm w frames outs w']: calling [get_opl_frame] on the
    frames one after the other, each call starting in the world the
    previous one left, leads from [w] to [w'] and yields the pairs
    [outs] of parvo and magno frames, one per input frame, in order. *)
Inductive processed `{Bioinspired} (r : retina) (color_mode : string) :
    world -> list value -> list (Np.ndarray * Np.ndarray) -> world -> Prop :=
| processed_nil : forall w, processed r color_mode w [] [] w
| processed_cons : forall w frame w1 pf mf rest outs w2,
    get_opl_frame r frame true true color_mode w
      = (Ok (VTuple [VArray pf; VArray mf]), w1) ->
    processed r color_mode w1 rest outs w2 ->
    processed r color_mode w (frame :: rest) ((pf, mf) :: outs) w2.

(** The world in which [get_opl_frames] feeds its first frame. *)
Definition opened `{Bioinspired} (r : retina) (reopen_eye : bool) (w : world) : world :=
  if reopen_eye
  then mk_world (clearBuffers r (lib w)) (calls w ++ [CallClearBuffers r])
  else w.

(** The list of parvo frames, and of magno frames, of the pairs [outs]. *)
Definition parvo_list (outs : list (Np.ndarray * Np.ndarray)) : value :=
  VList (map (fun o => VArray (fst o)) outs).

Definition magno_list (outs : list (Np.ndarray * Np.ndarray)) : value :=
  VList (map (fun o => VArray (snd o)) outs).

(** The value [get_opl_frames] returns for the per-frame pairs [outs]. *)
Definition collect (get_parvo get_magno : bool)
    (outs : list (Np.ndarray * Np.ndarray)) : value :=
  match get_parvo, get_magno with
  | true, true => VTuple [parvo_list outs; magno_list outs]
  | true, false => parvo_list outs
  | false, true => magno_list outs
  | false, false => VNone
  end.

(** One frame through the library and through the two conversions, as
    [get_opl_frame] does it before its flags choose what to hand back:
    the pair of frames it ends with, or the exception that stops it. *)
Definition opl_frame `{Bioinspired} (r : retina) (color_mode : string)
    (frame : value) (w : world) : result (Np.ndarray * Np.ndarray) * world :=
  match run r frame (lib w) with
  | (CvFail msg, s') =>
      (Raise (CvError msg), mk_world s' (calls w ++ [CallRun r frame]))
  | (CvOk _, s') =>
      let w' := mk_world s' (calls w ++ frame_calls r frame) in
      match convert_parvo color_mode (getParvo r s') with
      | Raise e => (Raise e, w')
      | Ok pf =>
          match grey2color (getMagno r s') with
          | Raise e => (Raise e, w')
          | Ok mf => (Ok (pf, mf), w')
          end
      end
  end.

(** The frames one after the other through [opl_frame], up to the first
    that raises. *)
Fixpoint opl_frames `{Bioinspired} (r : retina) (color_mode : string)
    (frames : list value) (w : world)
    : result (list (Np.ndarray * Np.ndarray)) * world :=
  match frames with
  | [] => (Ok [], w)
  | frame :: rest =>
      match opl_frame r color_mode frame w with
      | (Raise e, w1) => (Raise e, w1)
      | (Ok o, w1) =>
          match opl_frames r color_mode rest w1 with
          | (Raise e, w2) => (Raise e, w2)
          | (Ok outs, w2) => (Ok (o :: outs), w2)
          end
      end
  end.

(** [evs] is a beginning of [l]. *)
Definition prefix_of {A} (evs l : list A) : Prop := exists rest, evs ++ rest = l.

(** A local list variable: [Some l] where the flag made the assignment. *)
Definition bound (flag : bool) (l : list value) : local_list :=
  if flag then Some l else None.

(* ================================================================== *)
(** ** A small library instance to run the wrapper on *)

Module Echo.

(** A retina that remembers the last frame it was shown.  Its state is
    that frame; there is one retina object.  The constructor wants a pair
    of positive integers, [run] wants an array.  The parvo output is the
    remembered frame, the magno output its first channel when it has
    three axes. *)
Definition zeros (s : list nat) : Np.ndarray := Np.build s (fun _ => 0%Z).

Definition echo_create (inputSize : value) (s : Np.ndarray) : cv_result unit * Np.ndarray :=
  match inputSize with
  | VTuple [VInt w; VInt h] =>
      if ((0 <? w) && (0 <? h))%Z
      then (CvOk tt, zeros [Z.to_nat h; Z.to_nat w])
      else (CvFail "bad size", s)
  | _ => (CvFail "bad argument", s)
  end.

Definition echo_run (_ : unit) (frame : value) (s : Np.ndarray) : cv_result unit * Np.ndarray :=
  match frame with
  | VArray a => (CvOk tt, a)
  | _ => (CvFail "bad argument", s)
  end.

Definition echo_magno (_ : unit) (s : Np.ndarray) : Np.ndarray :=
  if Np.ndim s =? 3 then Np.take_last 0 s else s.

#[export] Instance echo : Bioinspired := {|
  lib_state := Np.ndarray;
  retina := unit;
  createRetina := echo_create;
  run := echo_run;
  getParvo := fun _ s => s;
  getMagno := echo_magno;
  clearBuffers := fun _ s => zeros (Np.shape s)
|}.

(** A fresh world: a 2x2 retina, nothing called yet. *)
Definition w0 : world := mk_world (zeros [2; 2] : lib_state) [].

(** Every item is an array of shape [s]. *)
Definition all_of_shape (s : list nat) (l : list value) : bool :=
  forallb (fun v =>
             match v with
             | VArray a => if list_eq_dec Nat.eq_dec (Np.shape a) s then true else false
             | _ => false
             end) l.

(** The value is a pair of lists of [n] arrays of shape [s] each. *)
Definition pair_of_lists (n : nat) (s : list nat) (v : value) : bool :=
  match v with
  | VTuple [VList ps; VList ms] =>
      (List.length ps =? n) && (List.length ms =? n)
      && all_of_shape s ps && all_of_shape s ms
  | _ => false
  end.

(** A grey frame of shape [s] filled with [x]. *)
Definition flat (s : list nat) (x : Z) : value := VArray (Np.build s (fun _ => x)).

(** Two grey 2x2 frames and a BGR 1x2 frame. *)
Definition g1 : Np.ndarray := Np.mk_ndarray [2; 2] [1; 2; 3; 4]%Z.
Definition g2 : Np.ndarray := Np.mk_ndarray [2; 2] [5; 6; 7; 8]%Z.
Definition bgr : Np.ndarray := Np.mk_ndarray [1; 2; 3] [1; 2; 3; 4; 5; 6]%Z.

(** The color frames of [g1] and [g2]. *)
Definition c1 : Np.ndarray :=
  Np.mk_ndarray [2; 2; 3] [1; 1; 1; 2; 2; 2; 3; 3; 3; 4; 4; 4]%Z.
Definition c2 : Np.ndarray :=
  Np.mk_ndarray [2; 2; 3] [5; 5; 5; 6; 6; 6; 7; 7; 7; 8; 8; 8]%Z.

End Echo.

(* ================================================================== *)
(** * Properties *)

(** ** Flat positions and multi-indices *)

Module NpFacts.
Import Np.

Lemma size_of_cons d s : size_of (d :: s) = d * size_of s.
Proof. reflexivity. Qed.

Lemma size_of_app s t : size_of (s ++ t) = size_of s * size_of t.
Proof.
  induction s as [|d s IH]; simpl.
  - lia.
  - rewrite IH. lia.
Qed.

(** A multi-index inside the shape has its flat position inside the data. *)
Lemma ravel_lt idx s : in_bounds idx s -> ravel s idx < size_of s.
Proof.
  induction 1 as [|i d idx s Hi _ IH]; simpl.
  - lia.
  - nia.
Qed.

(** Flat position and multi-index are inverse of each other, inside the
    shape. *)
Lemma unravel_ravel idx s : in_bounds idx s -> unravel s (ravel s idx) = idx.
Proof.
  induction 1 as [|i d idx s Hi Hrest IH]; simpl.
  - reflexivity.
  - pose proof (ravel_lt _ _ Hrest) as Hr.
    rewrite Nat.div_add_l by lia.
    rewrite (Nat.div_small _ _ Hr), Nat.add_0_r.
    rewrite Nat.add_comm, Nat.Div0.mod_add, (Nat.mod_small _ _ Hr).
    now rewrite IH.
Qed.

Lemma ravel_unravel s : forall k, k < size_of s -> ravel s (unravel s k) = k.
Proof.
  induction s as [|d s IH]; simpl; intros k Hk.
  - lia.
  - assert (size_of s <> 0) as Hp by nia.
    rewrite IH by (apply Nat.mod_upper_bound; exact Hp).
    pose proof (Nat.div_mod_eq k (size_of s)). lia.
Qed.

(** The multi-index of a position inside the data is inside the shape. *)
Lemma unravel_in_bounds s : forall k, k < size_of s -> in_bounds (unravel s k) s.
Proof.
  induction s as [|d s IH]; simpl; intros k Hk.
  - constructor.
  - assert (size_of s <> 0) as Hp by nia.
    constructor.
    + apply Nat.Div0.div_lt_upper_bound. lia.
    + apply IH, Nat.mod_upper_bound, Hp.
Qed.

(** With one more axis of extent [d] at the end, position [k * d + c]
    is position [k] of the shorter shape followed by index [c]. *)
Lemma unravel_snoc d c s : forall k,
  c < d -> k < size_of s -> unravel (s ++ [d]) (k * d + c) = unravel s k ++ [c].
Proof.
  induction s as [|a s IH]; cbn [app unravel]; intros k Hc Hk.
  - cbn [size_of fold_right] in *. assert (k = 0) by lia. subst k.
    rewrite Nat.div_1_r. reflexivity.
  - rewrite size_of_cons in Hk.
    assert (size_of s <> 0) as Hp by nia.
    rewrite size_of_app. cbn [size_of fold_right]. rewrite Nat.mul_1_r.
    fold (size_of s).
    assert ((k * d + c) / (size_of s * d) = k / size_of s) as ->.
    { rewrite (Nat.mul_comm (size_of s) d), <- Nat.Div0.div_div.
      rewrite Nat.div_add_l by lia. rewrite (Nat.div_small c d Hc). f_equal. lia. }
    assert ((k * d + c) mod (size_of s * d) = (k mod size_of s) * d + c) as ->.
    { pose proof (Nat.div_mod_eq k (size_of s)) as E.
      symmetry. apply Nat.mod_unique with (q := k / size_of s).
      - pose proof (Nat.mod_upper_bound k (size_of s) Hp). nia.
      - nia. }
    rewrite IH; auto. apply Nat.mod_upper_bound, Hp.
Qed.

(** Reading an array built from its element function. *)
Lemma nth_build n f k : k < n -> nth k (map f (seq 0 n)) 0%Z = f k.
Proof.
  intros Hk.
  rewrite (nth_indep _ 0%Z (f 0)) by (rewrite length_map, length_seq; exact Hk).
  rewrite map_nth, seq_nth by exact Hk. reflexivity.
Qed.

(** A list is rebuilt by reading all its positions in order. *)
Lemma map_nth_seq (l : list Z) : map (fun k => nth k l 0%Z) (seq 0 (List.length l)) = l.
Proof.
  induction l as [|x l IH]; simpl.
  - reflexivity.
  - f_equal. rewrite <- seq_shift, map_map. exact IH.
Qed.

Lemma build_wf s f : wf (build s f).
Proof. unfold wf, build; simpl. now rewrite length_map, length_seq. Qed.

End NpFacts.

(* ================================================================== *)
(** ** [np.tile], [np.transpose] and [grey2color] *)

Section GreyToColor.
Import Np NpFacts.

(** Bounds of a literal multi-index, from the hypotheses. *)
Ltac index_in_bounds :=
  repeat (apply Forall2_cons; [assumption|]); apply Forall2_nil.

(** [np.tile(g, (3, 1, 1)).shape] for a grey frame. *)
Lemma tile_311_shape g H W :
  shape g = [H; W] -> shape (tile g [3; 1; 1]) = [3; H; W].
Proof.
  intros Hs. unfold tile, ndim. rewrite Hs. cbn.
  now rewrite !Nat.mul_1_r.
Qed.

(** [np.tile(g, (3, 1, 1))[c, i, j] = g[i, j]] *)
Lemma tile_311_item g H W c i j :
  shape g = [H; W] -> c < 3 -> i < H -> j < W ->
  item (tile g [3; 1; 1]) [c; i; j] = item g [i; j].
Proof.
  intros Hs Hc Hi Hj.
  assert (in_bounds [c; i; j] [3; H; W]) as Hb
    by index_in_bounds.
  unfold item. rewrite (tile_311_shape _ _ _ Hs).
  unfold tile, ndim. rewrite Hs.
  change (Nat.max _ _) with 3.
  change (pad_left 1 3 [H; W]) with [1; H; W].
  change (pad_left 1 3 [3; 1; 1]) with [3; 1; 1].
  cbn [zip_with]. rewrite !Nat.mul_1_r. change (1 * 3) with 3.
  cbn [build data].
  rewrite nth_build by (apply ravel_lt; exact Hb).
  rewrite (unravel_ravel _ _ Hb).
  cbn [zip_with]. rewrite Nat.mod_1_r, (Nat.mod_small i H Hi), (Nat.mod_small j W Hj).
  reflexivity.
Qed.

(** [np.transpose(t, (1, 2, 0)).shape] *)
Lemma transpose_120_shape t A B C :
  shape t = [A; B; C] -> shape (transpose_axes t [1; 2; 0]) = [B; C; A].
Proof. intros Hs. unfold transpose_axes. rewrite Hs. reflexivity. Qed.

(** [np.transpose(t, (1, 2, 0))[i, j, c] = t[c, i, j]] *)
Lemma transpose_120_data t A B C k :
  shape t = [A; B; C] -> k < size_of [B; C; A] ->
  nth k (data (transpose_axes t [1; 2; 0])) 0%Z =
  match unravel [B; C; A] k with
  | [i; j; c] => item t [c; i; j]
  | _ => 0%Z
  end.
Proof.
  intros Hs Hk. unfold transpose_axes, item. rewrite Hs.
  change (map (fun ax => nth ax [A; B; C] 0) [1; 2; 0]) with [B; C; A].
  cbn [build data]. rewrite nth_build by exact Hk.
  reflexivity.
Qed.

(** [grey2color] never fails in [np.transpose]: the tiled frame has three
    axes. *)
Lemma grey2color_eq frame :
  grey2color frame =
  if ndim frame =? 2
  then Ok (transpose_axes (tile frame [3; 1; 1]) [1; 2; 0])
  else Raise (ValueError "Input frame is not a grey frame.").
Proof.
  unfold grey2color. destruct (ndim frame =? 2) eqn:E; cbn [negb]; [|reflexivity].
  apply Nat.eqb_eq in E. unfold ndim in E.
  destruct (shape frame) as [|H [|W [|? ?]]] eqn:Hs; try discriminate.
  unfold np_transpose, ndim. rewrite (tile_311_shape _ _ _ Hs). reflexivity.
Qed.

(** Every channel of the duplicated frame is the frame. *)
Lemma grey2color_channels g H W :
  shape g = [H; W] -> wf g ->
  forall c, c < 3 -> take_last c (transpose_axes (tile g [3; 1; 1]) [1; 2; 0]) = g.
Proof.
  intros Hs Hwf c Hc.
  pose proof (tile_311_shape _ _ _ Hs) as Ht.
  unfold take_last. rewrite (transpose_120_shape _ _ _ _ Ht).
  change (removelast [H; W; 3]) with [H; W].
  change (last [H; W; 3] 1) with 3.
  destruct g as [s l]. cbn [shape data] in *. subst s.
  unfold build. f_equal.
  unfold wf in Hwf. cbn [shape data] in Hwf. rewrite <- Hwf.
  rewrite <- (map_nth_seq l) at 2.
  apply map_ext_in. intros k Hk. apply in_seq in Hk. rewrite Hwf in Hk.
  assert (k < size_of [H; W]) as Hk' by lia.
  rewrite (transpose_120_data _ _ _ _ _ Ht).
  2:{ change [H; W; 3] with ([H; W] ++ [3]). rewrite size_of_app.
      cbn [size_of fold_right] in *. lia. }
  change [H; W; 3] with ([H; W] ++ [3]).
  rewrite (unravel_snoc 3 c [H; W] k Hc Hk').
  pose proof (unravel_in_bounds [H; W] k Hk') as Hb.
  destruct (unravel [H; W] k) as [|i [|j [|? ?]]] eqn:Eu;
    inversion Hb as [|? ? ? ? Hi Hb']; subst;
    inversion Hb' as [|? ? ? ? Hj Hb'']; subst;
    inversion Hb''; subst.
  cbn [app].
  rewrite (tile_311_item (mk_ndarray [H; W] l) H W c _ _ eq_refl Hc Hi Hj).
  unfold item. cbn [shape data].
  now rewrite <- Eu, (ravel_unravel [H; W] k Hk').
Qed.

(** [grey2color(g)[i, j, c] = g[i, j]] *)
Lemma grey2color_item g H W i j c :
  shape g = [H; W] -> i < H -> j < W -> c < 3 ->
  item (transpose_axes (tile g [3; 1; 1]) [1; 2; 0]) [i; j; c] = item g [i; j].
Proof.
  intros Hs Hi Hj Hc.
  pose proof (tile_311_shape _ _ _ Hs) as Ht.
  assert (in_bounds [i; j; c] [H; W; 3]) as Hb
    by index_in_bounds.
  unfold item at 1. rewrite (transpose_120_shape _ _ _ _ Ht).
  rewrite (transpose_120_data _ _ _ _ _ Ht) by (apply ravel_lt; exact Hb).
  rewrite (unravel_ravel _ _ Hb).
  now apply (tile_311_item g H W).
Qed.

(** A frame [grey2color] accepts is grey, and its result has three axes. *)
Lemma grey2color_ok_ndim frame a :
  grey2color frame = Ok a -> ndim frame = 2 /\ ndim a = 3.
Proof.
  rewrite grey2color_eq. destruct (ndim frame =? 2) eqn:E; [|discriminate].
  apply Nat.eqb_eq in E. intros Ha. inversion Ha; subst. split; [exact E|].
  unfold ndim in *. destruct (shape frame) as [|H [|W [|? ?]]] eqn:Hs; try discriminate.
  now rewrite (transpose_120_shape _ _ _ _ (tile_311_shape _ _ _ Hs)).
Qed.

End GreyToColor.

(** C3.  For every 2-dimensional array [g] of shape [(H, W)],
    [grey2color g] returns an array of shape [(H, W, 3)] each of whose
    three channels is [g]: taking channel [c] of the result gives [g]
    back, and element [(i, j, c)] of the result is element [(i, j)] of
    [g].  The transform has no effect: run inside the wrapper's monad it
    leaves the world (library state and call log) as it found it; its
    argument is a value and is not changed. *)
Theorem grey2color_duplicates (g : Np.ndarray) (H W : nat) :
  Np.shape g = [H; W] -> Np.wf g ->
  exists a,
    grey2color g = Ok a /\
    Np.shape a = [H; W; 3] /\
    Np.wf a /\
    (forall c, c < 3 -> Np.take_last c a = g) /\
    (forall i j c, i < H -> j < W -> c < 3 -> Np.item a [i; j; c] = Np.item g [i; j]) /\
    (forall (L : Bioinspired) (w : world), pure_call (grey2color g) w = (Ok a, w)).
Proof.
  intros Hs Hwf.
  exists (Np.transpose_axes (Np.tile g [3; 1; 1]) [1; 2; 0]).
  assert (grey2color g = Ok (Np.transpose_axes (Np.tile g [3; 1; 1]) [1; 2; 0])) as Hg.
  { rewrite grey2color_eq. unfold Np.ndim. now rewrite Hs. }
  split; [exact Hg|]. split.
  { exact (transpose_120_shape _ _ _ _ (tile_311_shape _ _ _ Hs)). }
  split; [apply NpFacts.build_wf|]. split.
  { exact (grey2color_channels g H W Hs Hwf). }
  split.
  { intros i j c Hi Hj Hc. now apply (grey2color_item g H W). }
  intros L w. unfold pure_call. now rewrite Hg.
Qed.

Lemma grey2color_duplicates_witness :
  Np.shape Echo.g1 = [2; 2] /\ Np.wf Echo.g1 /\
  exists a,
    grey2color Echo.g1 = Ok a /\
    Np.shape a = [2; 2; 3] /\
    Np.wf a /\
    (forall c, c < 3 -> Np.take_last c a = Echo.g1) /\
    (forall i j c, i < 2 -> j < 2 -> c < 3 -> Np.item a [i; j; c] = Np.item Echo.g1 [i; j]) /\
    (forall (L : Bioinspired) (w : world), pure_call (grey2color Echo.g1) w = (Ok a, w)).
Proof.
  split; [reflexivity|]. split; [reflexivity|].
  apply (grey2color_duplicates Echo.g1 2 2); reflexivity.
Defined.

(** C8.  [grey2color] raises a [ValueError] if and only if its argument
    does not have exactly two dimensions; the exception is then the whole
    outcome (no array is produced), and with two dimensions an array is
    always returned. *)
Theorem grey2color_raises_iff (frame : Np.ndarray) :
  ((exists msg, grey2color frame = Raise (ValueError msg)) <-> Np.ndim frame <> 2) /\
  (grey2color frame = Raise (ValueError "Input frame is not a grey frame.")
     <-> Np.ndim frame <> 2) /\
  ((exists a, grey2color frame = Ok a) <-> Np.ndim frame = 2).
Proof.
  rewrite grey2color_eq.
  destruct (Np.ndim frame =? 2) eqn:E.
  - apply Nat.eqb_eq in E. repeat split; try congruence.
    + intros [msg Hm]. discriminate.
    + eauto.
  - apply Nat.eqb_neq in E. repeat split; try congruence.
    + eauto.
    + intros [a Ha]. discriminate.
Qed.

(* ================================================================== *)
(** ** The wrapper, over any library *)

Section Wrapper.
Context `{L : Bioinspired}.

(** *** One frame *)

Lemma bind_ok {A B} (m : M A) (k : A -> M B) w a w' :
  m w = (Ok a, w') -> bind m k w = k a w'.
Proof. intros E. unfold bind. now rewrite E. Qed.

(** [get_opl_frame] once the library has taken the frame: three calls,
    then the two conversions, parvo first. *)
Lemma get_opl_frame_run_ok r frame gp gm cm w s' :
  run r frame (lib w) = (CvOk tt, s') ->
  get_opl_frame r frame gp gm cm w =
  let w' := mk_world s' (calls w ++ frame_calls r frame) in
  match convert_parvo cm (getParvo r s') with
  | Raise e => (Raise e, w')
  | Ok pf =>
      match grey2color (getMagno r s') with
      | Raise e => (Raise e, w')
      | Ok mf => (Ok (dispatch gp gm pf mf), w')
      end
  end.
Proof.
  intros Hrun.
  unfold get_opl_frame, bind, retina_run, retina_getParvo, retina_getMagno, log.
  rewrite Hrun. cbn [lift_cv lib calls].
  rewrite <- !app_assoc. cbn [app]. fold (frame_calls r frame).
  unfold convert_parvo.
  destruct (String.eqb cm "grey"); unfold pure_call, ret.
  - destruct (grey2color (getParvo r s')); [|reflexivity].
    destruct (grey2color (getMagno r s')); [|reflexivity].
    now destruct gp, gm.
  - destruct (grey2color (getMagno r s')); [|reflexivity].
    now destruct gp, gm.
Qed.

(** [get_opl_frame] when the library rejects the frame: its error goes
    to the caller, after the one call. *)
Lemma get_opl_frame_run_fail r frame gp gm cm w msg s' :
  run r frame (lib w) = (CvFail msg, s') ->
  get_opl_frame r frame gp gm cm w =
  (Raise (CvError msg), mk_world s' (calls w ++ [CallRun r frame])).
Proof.
  intros Hrun. unfold get_opl_frame, bind, retina_run, log.
  now rewrite Hrun.
Qed.

Lemma get_opl_frame_ok r frame gp gm cm w s' pf mf :
  run r frame (lib w) = (CvOk tt, s') ->
  convert_parvo cm (getParvo r s') = Ok pf ->
  grey2color (getMagno r s') = Ok mf ->
  get_opl_frame r frame gp gm cm w =
  (Ok (dispatch gp gm pf mf), mk_world s' (calls w ++ frame_calls r frame)).
Proof.
  intros Hrun Hpf Hmf.
  rewrite (get_opl_frame_run_ok r frame gp gm cm w s' Hrun).
  cbv zeta. now rewrite Hpf, Hmf.
Qed.

(** What [accepts] says of the first frame. *)
Lemma accepts_cons r cm frame rest s :
  accepts r cm (frame :: rest) s = true ->
  exists s' pf mf,
    run r frame s = (CvOk tt, s') /\
    convert_parvo cm (getParvo r s') = Ok pf /\
    grey2color (getMagno r s') = Ok mf /\
    accepts r cm rest s' = true.
Proof.
  cbn [accepts]. destruct (run r frame s) as [[[]|msg] s'] eqn:Hrun; [|discriminate].
  intros Hacc. apply andb_prop in Hacc as [Hacc Hrest].
  apply andb_prop in Hacc as [Hm Hp].
  apply Nat.eqb_eq in Hm.
  exists s'.
  assert (exists mf, grey2color (getMagno r s') = Ok mf) as [mf Hmf].
  { rewrite grey2color_eq, Hm. cbn. eauto. }
  assert (exists pf, convert_parvo cm (getParvo r s') = Ok pf) as [pf Hpf].
  { unfold convert_parvo. destruct (String.eqb cm "grey"); cbn in Hp.
    - apply Nat.eqb_eq in Hp. rewrite grey2color_eq, Hp. cbn. eauto.
    - eauto. }
  exists pf, mf. auto.
Qed.

(** *** A sequence of frames *)

Lemma get_opl_frames_body_ok r gp gm cm frame lp lm w s' pf mf :
  run r frame (lib w) = (CvOk tt, s') ->
  convert_parvo cm (getParvo r s') = Ok pf ->
  grey2color (getMagno r s') = Ok mf ->
  get_opl_frames_body r gp gm cm frame (bound gp lp, bound gm lm) w =
  (Ok (bound gp (lp ++ [VArray pf]), bound gm (lm ++ [VArray mf])),
   mk_world s' (calls w ++ frame_calls r frame)).
Proof.
  intros Hrun Hpf Hmf.
  unfold get_opl_frames_body.
  rewrite (bind_ok _ _ _ _ _ (get_opl_frame_ok r frame gp gm cm w s' pf mf Hrun Hpf Hmf)).
  destruct gp, gm; reflexivity.
Qed.


(** A call that returned a pair fixes what the library did, hence what
    the call returns under the other flags. *)
Lemma get_opl_frame_flags r frame cm w pf mf w1 :
  get_opl_frame r frame true true cm w = (Ok (VTuple [VArray pf; VArray mf]), w1) ->
  exists s',
    run r frame (lib w) = (CvOk tt, s') /\
    convert_parvo cm (getParvo r s') = Ok pf /\
    grey2color (getMagno r s') = Ok mf /\
    w1 = mk_world s' (calls w ++ frame_calls r frame).
Proof.
  destruct (run r frame (lib w)) as [[[]|msg] s'] eqn:Hrun.
  - rewrite (get_opl_frame_run_ok r frame true true cm w s' Hrun). cbv zeta.
    destruct (convert_parvo cm (getParvo r s')) as [pf'|e] eqn:Hpf; [|discriminate].
    destruct (grey2color (getMagno r s')) as [mf'|e] eqn:Hmf; [|discriminate].
    cbn [dispatch]. intros E. inversion E; subst. exists s'. auto.
  - rewrite (get_opl_frame_run_fail r frame true true cm w msg s' Hrun). discriminate.
Qed.

(** Frames the library accepts are frames [get_opl_frame] processes. *)
Lemma accepts_processed r cm : forall frames w,
  accepts r cm frames (lib w) = true ->
  exists outs w',
    processed r cm w frames outs w' /\
    List.length outs = List.length frames /\
    calls w' = calls w ++ flat_map (frame_calls r) frames.
Proof.
  induction frames as [|frame rest IH]; intros w Hacc.
  - exists [], w. cbn. rewrite app_nil_r. split; [constructor|split; reflexivity].
  - apply accepts_cons in Hacc as (s' & pf & mf & Hrun & Hpf & Hmf & Hrest).
    set (w1 := mk_world s' (calls w ++ frame_calls r frame)).
    destruct (IH w1 Hrest) as (outs & w' & Hproc & Hlen & Hcalls).
    exists ((pf, mf) :: outs), w'. repeat split.
    + apply processed_cons with (w1 := w1); [|exact Hproc].
      exact (get_opl_frame_ok r frame true true cm w s' pf mf Hrun Hpf Hmf).
    + cbn. now rewrite Hlen.
    + rewrite Hcalls. cbn [w1 calls flat_map]. now rewrite <- app_assoc.
Qed.

(** The loop of [get_opl_frames] on frames that [get_opl_frame] processes:
    each accumulator that was bound grows by its frame of every pair. *)
Lemma for_each_processed r gp gm cm w frames outs w' :
  processed r cm w frames outs w' ->
  forall lp lm,
    for_each frames (get_opl_frames_body r gp gm cm) (bound gp lp, bound gm lm) w =
    (Ok (bound gp (lp ++ map (fun o => VArray (fst o)) outs),
         bound gm (lm ++ map (fun o => VArray (snd o)) outs)), w').
Proof.
  induction 1 as [w|w frame w1 pf mf rest outs w2 Hstep _ IH]; intros lp lm.
  - cbn. now rewrite !app_nil_r.
  - apply get_opl_frame_flags in Hstep as (s' & Hrun & Hpf & Hmf & ->).
    cbn [for_each].
    rewrite (bind_ok _ _ _ _ _
               (get_opl_frames_body_ok r gp gm cm frame lp lm w s' pf mf Hrun Hpf Hmf)).
    rewrite IH. cbn [map fst snd]. now rewrite <- !app_assoc.
Qed.

(** [get_opl_frames] on a non-empty list of frames that [get_opl_frame]
    processes. *)
Lemma get_opl_frames_processed r frames gp gm reopen cm w outs w' :
  frames <> [] ->
  processed r cm (opened r reopen w) frames outs w' ->
  get_opl_frames r (VList frames) gp gm reopen cm w = (Ok (collect gp gm outs), w').
Proof.
  intros Hne Hproc.
  unfold get_opl_frames, bind at 1, pure_call at 1. cbn [len isinstance_list negb].
  destruct frames as [|f rest]; [congruence|].
  cbn [List.length Nat.eqb orb].
  assert ((if reopen then clear_buffers r else ret tt) w = (Ok tt, opened r reopen w)) as Hopen
    by (destruct reopen; reflexivity).
  rewrite (bind_ok _ _ _ _ _ Hopen).
  unfold bind at 1, pure_call at 1. cbn [iter].
  pose proof (for_each_processed r gp gm cm _ _ _ _ Hproc [] []) as Hloop.
  cbn [app] in Hloop.
  change (if gp then Some [] else None) with (bound gp []).
  change (if gm then Some [] else None) with (bound gm []).
  rewrite (bind_ok _ _ _ _ _ Hloop).
  destruct gp, gm; reflexivity.
Qed.


(** *** The call log *)

(** Whatever its outcome, [get_opl_frame] first calls [run] and never
    [clearBuffers]. *)
Lemma get_opl_frame_calls r frame gp gm cm w :
  exists evs,
    calls (snd (get_opl_frame r frame gp gm cm w)) = calls w ++ CallRun r frame :: evs /\
    filter is_clear evs = [].
Proof.
  destruct (run r frame (lib w)) as [[[]|msg] s'] eqn:Hrun.
  - exists [CallGetParvo r; CallGetMagno r]. split; [|reflexivity].
    rewrite (get_opl_frame_run_ok r frame gp gm cm w s' Hrun). cbv zeta.
    destruct (convert_parvo cm (getParvo r s')); [|reflexivity].
    destruct (grey2color (getMagno r s')); reflexivity.
  - exists []. split; [|reflexivity].
    now rewrite (get_opl_frame_run_fail r frame gp gm cm w msg s' Hrun).
Qed.

(** The loop body touches the world through [get_opl_frame] only. *)
Lemma get_opl_frames_body_world r gp gm cm frame acc w :
  snd (get_opl_frames_body r gp gm cm frame acc w) =
  snd (get_opl_frame r frame gp gm cm w).
Proof.
  unfold get_opl_frames_body, bind, pure_call, ret. destruct acc as [pfs mfs].
  destruct (get_opl_frame r frame gp gm cm w) as [[out|e] w1]; [|reflexivity].
  cbn [snd].
  destruct gp, gm; cbn [andb negb];
    repeat match goal with
           | |- context [match ?x with _ => _ end] => destruct x
           end; reflexivity.
Qed.

(** Whatever its outcome, the loop only adds calls, none of them a
    [clearBuffers], the first of them [run] on the first frame. *)
Lemma for_each_calls r gp gm cm : forall frames acc w,
  exists evs,
    calls (snd (for_each frames (get_opl_frames_body r gp gm cm) acc w)) = calls w ++ evs /\
    filter is_clear evs = [] /\
    match frames with
    | [] => True
    | frame :: _ => exists evs', evs = CallRun r frame :: evs'
    end.
Proof.
  induction frames as [|frame rest IH]; intros acc w.
  - exists []. cbn. now rewrite app_nil_r.
  - cbn [for_each]. unfold bind.
    pose proof (get_opl_frames_body_world r gp gm cm frame acc w) as Hw.
    destruct (get_opl_frame_calls r frame gp gm cm w) as (evs1 & Hc1 & Hn1).
    rewrite <- Hw in Hc1.
    destruct (get_opl_frames_body r gp gm cm frame acc w) as [[acc'|e] w1]; cbn [snd] in *.
    + destruct (IH acc' w1) as (evs2 & Hc2 & Hn2 & _).
      exists (CallRun r frame :: evs1 ++ evs2). repeat split.
      * rewrite Hc2, Hc1, <- app_assoc. reflexivity.
      * cbn. now rewrite filter_app, Hn1, Hn2.
      * eauto.
    + exists (CallRun r frame :: evs1). repeat split; eauto.
Qed.

(** Past its argument check, the world [get_opl_frames] ends in is the
    one its loop ends in. *)
Lemma get_opl_frames_world r frame rest gp gm reopen cm w :
  snd (get_opl_frames r (VList (frame :: rest)) gp gm reopen cm w) =
  snd (for_each (frame :: rest) (get_opl_frames_body r gp gm cm)
         (bound gp [], bound gm []) (opened r reopen w)).
Proof.
  unfold get_opl_frames, bind at 1, pure_call at 1.
  cbn [len isinstance_list negb List.length Nat.eqb orb].
  assert ((if reopen then clear_buffers r else ret tt) w = (Ok tt, opened r reopen w)) as Hopen
    by (destruct reopen; reflexivity).
  rewrite (bind_ok _ _ _ _ _ Hopen).
  unfold bind at 1, pure_call at 1. cbn [iter].
  unfold bind at 1, bound.
  match goal with
  | |- context [for_each ?fs ?body ?acc ?w0] =>
      destruct (for_each fs body acc w0) as [[[pfs mfs]|e] w2]
  end; [|reflexivity].
  destruct gp, gm, pfs, mfs; reflexivity.
Qed.

(** *** [init_retina] *)

(** An object of length two has items 0 and 1. *)
Lemma subscript_len_2 size :
  len size = Ok 2 -> exists a b, subscript size 1 = Ok a /\ subscript size 0 = Ok b.
Proof.
  destruct size as [|n|s|a|l|l|l]; cbn; try discriminate.
  - destruct s as [|c0 [|c1 [|c2 s]]]; try discriminate. cbn. eauto.
  - destruct (Np.shape a) as [|n s']; [discriminate|].
    intros E. inversion E; subst. cbn. eauto.
  - destruct l as [|a [|b [|c l]]]; try discriminate. cbn. eauto.
  - destruct l as [|a [|b [|c l]]]; try discriminate. cbn. eauto.
Qed.

Lemma init_retina_pair a b w :
  init_retina (VTuple [a; b]) w = bioinspired_createRetina (VTuple [b; a]) w.
Proof. reflexivity. Qed.

Lemma bioinspired_createRetina_not_ValueError arg w msg :
  fst (bioinspired_createRetina arg w) <> Raise (ValueError msg).
Proof.
  unfold bioinspired_createRetina.
  destruct (createRetina arg (lib w)) as [[hdl|m] s]; cbn; discriminate.
Qed.

Lemma init_retina_wrong_len size n w :
  len size = Ok n -> n <> 2 ->
  init_retina size w = (Raise (ValueError "Invalid size setting."), w).
Proof.
  intros Hlen Hn. unfold init_retina, bind, pure_call. rewrite Hlen.
  apply Nat.eqb_neq in Hn. now rewrite Hn.
Qed.

Lemma init_retina_len_2 size w :
  len size = Ok 2 ->
  exists a b, init_retina size w = bioinspired_createRetina (VTuple [a; b]) w.
Proof.
  intros Hlen. destruct (subscript_len_2 size Hlen) as (a & b & Ha & Hb).
  exists a, b. unfold init_retina, bind, pure_call. rewrite Hlen, Ha, Hb. reflexivity.
Qed.

Lemma init_retina_unsized size e w :
  len size = Raise e -> init_retina size w = (Raise e, w) /\ is_ValueError e = false.
Proof.
  intros Hlen. unfold init_retina, bind, pure_call. rewrite Hlen. split; [reflexivity|].
  destruct size as [|n|s|a|l|l|l]; cbn in Hlen; try discriminate;
    try (inversion Hlen; reflexivity).
  destruct (Np.shape a); [inversion Hlen; reflexivity|discriminate].
Qed.

(** *** The argument check of [get_opl_frames] *)

(** An empty sequence and a non-list with a length are rejected by the
    check, in the world the call started in. *)
Lemma get_opl_frames_sized_rejected r frames n gp gm reopen cm w :
  len frames = Ok n -> n = 0 \/ isinstance_list frames = false ->
  get_opl_frames r frames gp gm reopen cm w =
  (Raise (ValueError "No video frame is entered"), w).
Proof.
  intros Hlen Hbad. unfold get_opl_frames, bind at 1, pure_call at 1. rewrite Hlen.
  destruct Hbad as [-> | ->]; [reflexivity|].
  now rewrite orb_true_r.
Qed.

(** An object without a length fails in [len], before the check. *)
Lemma get_opl_frames_unsized r frames e gp gm reopen cm w :
  len frames = Raise e ->
  get_opl_frames r frames gp gm reopen cm w = (Raise e, w).
Proof.
  intros Hlen. unfold get_opl_frames, bind at 1, pure_call at 1. now rewrite Hlen.
Qed.

(** *** What the specification states about the wrapper *)

(** C1.  Once the library has taken the frame, [get_opl_frame] ends,
    for every choice of the flags, with the two frames [pf] and [mf]
    (handed back as the flags say) exactly when [mf] is [grey2color] of
    the magno output fetched from the handle (hence has three axes),
    whatever the color mode, and [pf] is [grey2color] of the fetched parvo
    output when the color mode is ["grey"] and the fetched parvo output
    itself otherwise. *)
Theorem get_opl_frame_color_policy (r : retina) (frame : value) (cm : string)
    (w : world) (s' : lib_state) :
  run r frame (lib w) = (CvOk tt, s') ->
  forall pf mf : Np.ndarray,
    (forall gp gm,
       get_opl_frame r frame gp gm cm w =
         (Ok (dispatch gp gm pf mf), mk_world s' (calls w ++ frame_calls r frame)))
    <->
    grey2color (getMagno r s') = Ok mf /\
    Np.ndim mf = 3 /\
    (if String.eqb cm "grey"
     then grey2color (getParvo r s') = Ok pf
     else pf = getParvo r s').
Proof.
  intros Hrun pf mf. split.
  - intros Hall. specialize (Hall true true).
    apply get_opl_frame_flags in Hall as (s1 & Hrun1 & Hpf & Hmf & _).
    rewrite Hrun in Hrun1. inversion Hrun1; subst s1.
    split; [exact Hmf|]. split; [exact (proj2 (grey2color_ok_ndim _ _ Hmf))|].
    unfold convert_parvo in Hpf.
    destruct (String.eqb cm "grey"); [exact Hpf|congruence].
  - intros (Hmf & _ & Hpf) gp gm.
    apply get_opl_frame_ok; [exact Hrun| |exact Hmf].
    unfold convert_parvo.
    destruct (String.eqb cm "grey"); [exact Hpf|now subst pf].
Qed.

(** C2.  When the library takes the frame and its outputs can be
    converted, [get_opl_frame] returns the ordered pair
    [(parvo_frame, magno_frame)] with both flags true, the parvo frame
    alone (not a pair) with [get_parvo] only, and the magno frame alone
    with [get_magno] only. *)
Theorem get_opl_frame_return_shape (r : retina) (frame : value) (cm : string) (w : world) :
  accepts r cm [frame] (lib w) = true ->
  exists s' pf mf,
    run r frame (lib w) = (CvOk tt, s') /\
    convert_parvo cm (getParvo r s') = Ok pf /\
    grey2color (getMagno r s') = Ok mf /\
    get_opl_frame r frame true true cm w =
      (Ok (VTuple [VArray pf; VArray mf]), mk_world s' (calls w ++ frame_calls r frame)) /\
    get_opl_frame r frame true false cm w =
      (Ok (VArray pf), mk_world s' (calls w ++ frame_calls r frame)) /\
    get_opl_frame r frame false true cm w =
      (Ok (VArray mf), mk_world s' (calls w ++ frame_calls r frame)).
Proof.
  intros Hacc.
  apply accepts_cons in Hacc as (s' & pf & mf & Hrun & Hpf & Hmf & _).
  exists s', pf, mf. repeat split; try assumption.
  - exact (get_opl_frame_ok r frame true true cm w s' pf mf Hrun Hpf Hmf).
  - exact (get_opl_frame_ok r frame true false cm w s' pf mf Hrun Hpf Hmf).
  - exact (get_opl_frame_ok r frame false true cm w s' pf mf Hrun Hpf Hmf).
Qed.

(** C4.  On a non-empty list of [N] frames the library accepts,
    [get_opl_frames] is [get_opl_frame] applied to the frames one at a
    time in input order on the same handle, each call starting in the
    world the previous one left ([processed], and the order of the calls
    in the log).  The per-frame results are gathered in lists of length
    [N] in input order; both flags true return the pair (parvo list, magno
    list), a single flag returns that one list. *)
Theorem get_opl_frames_in_order (r : retina) (frames : list value)
    (reopen : bool) (cm : string) (w : world) :
  frames <> [] ->
  accepts r cm frames (lib (opened r reopen w)) = true ->
  exists outs w',
    processed r cm (opened r reopen w) frames outs w' /\
    List.length outs = List.length frames /\
    len (parvo_list outs) = Ok (List.length frames) /\
    len (magno_list outs) = Ok (List.length frames) /\
    calls w' = calls (opened r reopen w) ++ flat_map (frame_calls r) frames /\
    get_opl_frames r (VList frames) true true reopen cm w =
      (Ok (VTuple [parvo_list outs; magno_list outs]), w') /\
    get_opl_frames r (VList frames) true false reopen cm w = (Ok (parvo_list outs), w') /\
    get_opl_frames r (VList frames) false true reopen cm w = (Ok (magno_list outs), w').
Proof.
  intros Hne Hacc.
  destruct (accepts_processed r cm frames _ Hacc) as (outs & w' & Hproc & Hlen & Hcalls).
  exists outs, w'. repeat split; try assumption.
  - cbn. now rewrite length_map, Hlen.
  - cbn. now rewrite length_map, Hlen.
  - exact (get_opl_frames_processed r frames true true reopen cm w outs w' Hne Hproc).
  - exact (get_opl_frames_processed r frames true false reopen cm w outs w' Hne Hproc).
  - exact (get_opl_frames_processed r frames false true reopen cm w outs w' Hne Hproc).
Qed.

(** C5.  On a non-empty frame list and with [reopen_eye=True], the
    calls [get_opl_frames] adds to the log start with one
    [clearBuffers], followed at once by [run] on the first frame, and hold
    no other [clearBuffers]: the buffers are cleared exactly once, before
    the first frame is fed.  This holds whether or not the run
    completes. *)
Theorem reopen_eye_clears_once (r : retina) (frame : value) (rest : list value)
    (gp gm : bool) (cm : string) (w : world) :
  exists evs,
    calls (snd (get_opl_frames r (VList (frame :: rest)) gp gm true cm w)) =
      calls w ++ CallClearBuffers r :: CallRun r frame :: evs /\
    filter is_clear evs = [] /\
    List.length (filter is_clear (CallClearBuffers r :: CallRun r frame :: evs)) = 1.
Proof.
  rewrite get_opl_frames_world.
  destruct (for_each_calls r gp gm cm (frame :: rest) (bound gp [], bound gm [])
              (opened r true w)) as (evs & Hcalls & Hclear & evs' & ->).
  exists evs'. cbn [filter is_clear] in Hclear |- *. rewrite Hclear.
  repeat split.
  rewrite Hcalls. cbn [opened calls]. now rewrite <- app_assoc.
Qed.

(** C6.  On a size tuple [(h, wd)] of positive integers [init_retina]
    is the library constructor called once on the reversed pair
    [(wd, h)]: it returns the handle the constructor produces, and raises
    nothing of its own (the only exception it can end with is one the
    constructor raised). *)
Theorem init_retina_reversed_size (h wd : Z) (w : world) :
  (0 < h)%Z -> (0 < wd)%Z ->
  init_retina (VTuple [VInt h; VInt wd]) w =
    bioinspired_createRetina (VTuple [VInt wd; VInt h]) w /\
  calls (snd (init_retina (VTuple [VInt h; VInt wd]) w)) =
    calls w ++ [CallCreateRetina (VTuple [VInt wd; VInt h])] /\
  (forall hdl s',
     createRetina (VTuple [VInt wd; VInt h]) (lib w) = (CvOk hdl, s') ->
     init_retina (VTuple [VInt h; VInt wd]) w =
       (Ok hdl, mk_world s' (calls w ++ [CallCreateRetina (VTuple [VInt wd; VInt h])]))) /\
  (forall e,
     fst (init_retina (VTuple [VInt h; VInt wd]) w) = Raise e ->
     exists msg,
       e = CvError msg /\
       fst (createRetina (VTuple [VInt wd; VInt h]) (lib w)) = CvFail msg).
Proof.
  intros _ _. rewrite init_retina_pair. unfold bioinspired_createRetina, log.
  destruct (createRetina (VTuple [VInt wd; VInt h]) (lib w)) as [[hdl|msg] s].
  - repeat split.
    + intros hdl' s' E. now inversion E.
    + cbn. discriminate.
  - repeat split.
    + discriminate.
    + cbn. intros e E. inversion E. eauto.
Qed.

(** C7.  [init_retina] raises a [ValueError] if and only if its
    argument has a length other than two; it then stops in the world it
    started in, so the constructor is never called. *)
Theorem init_retina_raises_iff (size : value) (w : world) :
  ((exists msg, fst (init_retina size w) = Raise (ValueError msg))
     <-> (exists n, len size = Ok n /\ n <> 2)) /\
  (init_retina size w = (Raise (ValueError "Invalid size setting."), w)
     <-> (exists n, len size = Ok n /\ n <> 2)).
Proof.
  assert ((exists n, len size = Ok n /\ n <> 2) ->
          init_retina size w = (Raise (ValueError "Invalid size setting."), w)) as Hbad.
  { intros (n & Hlen & Hn). exact (init_retina_wrong_len size n w Hlen Hn). }
  assert (forall msg, fst (init_retina size w) = Raise (ValueError msg) ->
          exists n, len size = Ok n /\ n <> 2) as Hgood.
  { intros msg Hraise. destruct (len size) as [n|e] eqn:Hlen.
    - destruct (Nat.eq_dec n 2) as [->|Hn]; [|eauto].
      destruct (init_retina_len_2 size w Hlen) as (a & b & E).
      rewrite E in Hraise.
      now apply bioinspired_createRetina_not_ValueError in Hraise.
    - destruct (init_retina_unsized size e w Hlen) as [E He].
      rewrite E in Hraise. cbn in Hraise. inversion Hraise; subst. discriminate. }
  split; split.
  - intros [msg Hraise]. eauto.
  - intros Hn. rewrite (Hbad Hn). cbn. eauto.
  - intros E. apply (Hgood "Invalid size setting."). now rewrite E.
  - exact Hbad.
Qed.

(** C9.  On an argument that is no list and has no length, such as
    [None] or a generator of frames, [get_opl_frames] does not reach its
    own check: [len(frames)] is evaluated first and raises [TypeError].
    Nothing is cleared and no frame is processed, but the exception is not
    the [ValueError] of the argument check. *)
Theorem get_opl_frames_unsized_TypeError (r : retina) (items : list value)
    (gp gm reopen : bool) (cm : string) (w : world) :
  isinstance_list VNone = false /\
  isinstance_list (VGenerator items) = false /\
  get_opl_frames r VNone gp gm reopen cm w =
    (Raise (TypeError "object has no len()"), w) /\
  get_opl_frames r (VGenerator items) gp gm reopen cm w =
    (Raise (TypeError "object has no len()"), w) /\
  is_ValueError (TypeError "object has no len()") = false.
Proof. repeat split. Qed.

(** C10.  With both flags false, [get_opl_frame] still feeds the frame
    to the handle (the library state is the one [run] produced and the
    call is in the log) and returns [None]; [get_opl_frames] with both
    flags false feeds every frame to the handle, in order, and returns
    [None] instead of a list. *)
Theorem no_channel_requested (r : retina) (frame : value) (rest : list value)
    (reopen : bool) (cm : string) (w : world) :
  accepts r cm [frame] (lib w) = true ->
  accepts r cm (frame :: rest) (lib (opened r reopen w)) = true ->
  (exists s',
     run r frame (lib w) = (CvOk tt, s') /\
     get_opl_frame r frame false false cm w =
       (Ok VNone, mk_world s' (calls w ++ frame_calls r frame))) /\
  (exists w',
     get_opl_frames r (VList (frame :: rest)) false false reopen cm w = (Ok VNone, w') /\
     calls w' =
       calls (opened r reopen w) ++ flat_map (frame_calls r) (frame :: rest)).
Proof.
  intros Hone Hall. split.
  - apply accepts_cons in Hone as (s' & pf & mf & Hrun & Hpf & Hmf & _).
    exists s'. split; [exact Hrun|].
    exact (get_opl_frame_ok r frame false false cm w s' pf mf Hrun Hpf Hmf).
  - destruct (accepts_processed r cm _ _ Hall) as (outs & w' & Hproc & _ & Hcalls).
    exists w'. split; [|exact Hcalls].
    refine (get_opl_frames_processed r _ false false reopen cm w outs w' _ Hproc).
    discriminate.
Qed.

End Wrapper.

(* ================================================================== *)
(** ** More on [grey2color] *)

Section GreyToColorMore.
Import Np NpFacts.

(** A frame [grey2color] accepts, and what it returns for it. *)
Lemma grey2color_ok_inv frame a :
  grey2color frame = Ok a ->
  exists H W,
    shape frame = [H; W] /\
    a = transpose_axes (tile frame [3; 1; 1]) [1; 2; 0] /\
    shape a = [H; W; 3].
Proof.
  rewrite grey2color_eq. destruct (ndim frame =? 2) eqn:E; [|discriminate].
  apply Nat.eqb_eq in E. unfold ndim in E.
  destruct (shape frame) as [|H [|W [|? ?]]] eqn:Hs; try discriminate.
  intros Ha. inversion Ha; subst. exists H, W. repeat split.
  exact (transpose_120_shape _ _ _ _ (tile_311_shape _ _ _ Hs)).
Qed.

(** X10.  [grey2color] cannot be applied twice: the frame it returns has
    three axes and is rejected as an argument. *)
Theorem grey2color_not_twice (frame a : ndarray) :
  grey2color frame = Ok a ->
  grey2color a = Raise (ValueError "Input frame is not a grey frame.").
Proof.
  intros Ha. destruct (grey2color_ok_ndim _ _ Ha) as [_ H3].
  rewrite grey2color_eq, H3. reflexivity.
Qed.

(** X11.  [grey2color] loses nothing: two grey frames with the same
    color frame are the same frame. *)
Theorem grey2color_injective (g1 g2 a : ndarray) :
  wf g1 -> wf g2 ->
  grey2color g1 = Ok a -> grey2color g2 = Ok a ->
  g1 = g2.
Proof.
  intros Hwf1 Hwf2 H1 H2.
  destruct (grey2color_ok_inv _ _ H1) as (H & W & Hs1 & Ha1 & Hsa1).
  destruct (grey2color_ok_inv _ _ H2) as (H' & W' & Hs2 & Ha2 & Hsa2).
  rewrite Hsa1 in Hsa2. inversion Hsa2; subst H' W'.
  rewrite <- (grey2color_channels g1 H W Hs1 Hwf1 0) by lia.
  rewrite <- (grey2color_channels g2 H W Hs2 Hwf2 0) by lia.
  now rewrite <- Ha1, <- Ha2.
Qed.

(** X12.  The color frame has three times as many elements as the grey
    frame, and the same pixel values: every value of the result is a
    value of the argument and conversely. *)
Theorem grey2color_same_values (g a : ndarray) :
  wf g -> grey2color g = Ok a ->
  List.length (data a) = 3 * List.length (data g) /\
  forall x, In x (data a) <-> In x (data g).
Proof.
  intros Hwf Ha.
  destruct (grey2color_ok_inv _ _ Ha) as (H & W & Hs & Hdef & Hsa).
  assert (wf a) as Hwfa by (rewrite Hdef; apply build_wf).
  assert (List.length (data g) = H * W) as Hlg
    by (rewrite Hwf, Hs; cbn; lia).
  assert (List.length (data a) = 3 * (H * W)) as Hla
    by (rewrite Hwfa, Hsa; cbn; lia).
  assert (forall k c, k < H * W -> c < 3 ->
            nth (k * 3 + c) (data a) 0%Z = nth k (data g) 0%Z) as Hnth.
  { intros k c Hk Hc.
    pose proof (grey2color_channels g H W Hs Hwf c Hc) as Hch.
    rewrite <- Hdef in Hch. rewrite <- Hch.
    unfold take_last. rewrite Hsa. cbn [removelast last build data].
    rewrite nth_build by (cbn; lia). reflexivity. }
  split; [lia|]. intros x. split.
  - intros Hin. apply (In_nth _ _ 0%Z) in Hin as (p & Hp & <-).
    rewrite (Nat.div_mod_eq p 3), (Nat.mul_comm 3).
    rewrite Hnth.
    + apply nth_In. rewrite Hlg.
      apply Nat.Div0.div_lt_upper_bound. lia.
    + apply Nat.Div0.div_lt_upper_bound. lia.
    + apply Nat.mod_upper_bound. lia.
  - intros Hin. apply (In_nth _ _ 0%Z) in Hin as (k & Hk & <-).
    rewrite <- (Hnth k 0) by lia.
    apply nth_In. lia.
Qed.

End GreyToColorMore.

(* ================================================================== *)
(** ** The wrapper, for every outcome *)

Section Outcomes.
Context `{L : Bioinspired}.

(** [get_opl_frame] is [opl_frame] followed by the choice of the flags. *)
Lemma get_opl_frame_opl r frame gp gm cm w :
  get_opl_frame r frame gp gm cm w =
  match opl_frame r cm frame w with
  | (Ok o, w') => (Ok (dispatch gp gm (fst o) (snd o)), w')
  | (Raise e, w') => (Raise e, w')
  end.
Proof.
  unfold opl_frame.
  destruct (run r frame (lib w)) as [[[]|msg] s'] eqn:Hrun.
  - rewrite (get_opl_frame_run_ok r frame gp gm cm w s' Hrun). cbv zeta.
    destruct (convert_parvo cm (getParvo r s')); [|reflexivity].
    destruct (grey2color (getMagno r s')); reflexivity.
  - exact (get_opl_frame_run_fail r frame gp gm cm w msg s' Hrun).
Qed.

Lemma get_opl_frames_body_opl r gp gm cm frame lp lm w :
  get_opl_frames_body r gp gm cm frame (bound gp lp, bound gm lm) w =
  match opl_frame r cm frame w with
  | (Ok o, w') =>
      (Ok (bound gp (lp ++ [VArray (fst o)]), bound gm (lm ++ [VArray (snd o)])), w')
  | (Raise e, w') => (Raise e, w')
  end.
Proof.
  unfold get_opl_frames_body, bind. rewrite get_opl_frame_opl.
  destruct (opl_frame r cm frame w) as [[[pf mf]|e] w']; [|reflexivity].
  destruct gp, gm; reflexivity.
Qed.

(** The loop of [get_opl_frames], for every outcome. *)
Lemma for_each_opl r gp gm cm : forall frames lp lm w,
  for_each frames (get_opl_frames_body r gp gm cm) (bound gp lp, bound gm lm) w =
  match opl_frames r cm frames w with
  | (Ok outs, w') =>
      (Ok (bound gp (lp ++ map (fun o => VArray (fst o)) outs),
           bound gm (lm ++ map (fun o => VArray (snd o)) outs)), w')
  | (Raise e, w') => (Raise e, w')
  end.
Proof.
  induction frames as [|frame rest IH]; intros lp lm w.
  - cbn. now rewrite !app_nil_r.
  - cbn [for_each opl_frames]. unfold bind at 1.
    rewrite get_opl_frames_body_opl.
    destruct (opl_frame r cm frame w) as [[o|e] w1]; [|reflexivity].
    rewrite IH.
    destruct (opl_frames r cm rest w1) as [[outs|e] w2]; [|reflexivity].
    cbn [map]. now rewrite <- !app_assoc.
Qed.

(** [get_opl_frames] on a non-empty list, for every outcome. *)
Lemma get_opl_frames_opl r frame rest gp gm reopen cm w :
  get_opl_frames r (VList (frame :: rest)) gp gm reopen cm w =
  match opl_frames r cm (frame :: rest) (opened r reopen w) with
  | (Ok outs, w') => (Ok (collect gp gm outs), w')
  | (Raise e, w') => (Raise e, w')
  end.
Proof.
  unfold get_opl_frames, bind at 1, pure_call at 1.
  cbn [len isinstance_list negb List.length Nat.eqb orb].
  assert ((if reopen then clear_buffers r else ret tt) w = (Ok tt, opened r reopen w)) as Hopen
    by (destruct reopen; reflexivity).
  rewrite (bind_ok _ _ _ _ _ Hopen).
  unfold bind at 1, pure_call at 1. cbn [iter].
  unfold bind at 1.
  pose proof (for_each_opl r gp gm cm (frame :: rest) [] [] (opened r reopen w)) as Hloop.
  unfold bound at 1 2 in Hloop. rewrite Hloop. clear Hloop.
  destruct (opl_frames r cm (frame :: rest) (opened r reopen w)) as [[outs|e] w2];
    [|reflexivity].
  cbn [app]. destruct gp, gm; reflexivity.
Qed.

Lemma processed_opl r cm frames : forall w outs w',
  processed r cm w frames outs w' <-> opl_frames r cm frames w = (Ok outs, w').
Proof.
  induction frames as [|frame rest IH]; intros w outs w'; split.
  - intros Hp. inversion Hp; subst. reflexivity.
  - cbn. intros E. inversion E; subst. constructor.
  - intros Hp. inversion Hp as [|? ? w1 pf mf ? outs' ? Hstep Hrest]; subst.
    cbn [opl_frames]. rewrite get_opl_frame_opl in Hstep.
    destruct (opl_frame r cm frame w) as [[[pf' mf']|e] w1']; [|discriminate].
    cbn in Hstep. inversion Hstep; subst.
    apply IH in Hrest. now rewrite Hrest.
  - cbn [opl_frames]. intros E.
    destruct (opl_frame r cm frame w) as [[[pf mf]|e] w1] eqn:Hstep; [|discriminate].
    destruct (opl_frames r cm rest w1) as [[outs'|e] w2] eqn:Hrest; [|discriminate].
    inversion E; subst.
    apply processed_cons with (w1 := w1).
    + rewrite get_opl_frame_opl, Hstep. reflexivity.
    + now apply IH.
Qed.

Lemma opl_frames_app r cm xs : forall ys w,
  opl_frames r cm (xs ++ ys) w =
  match opl_frames r cm xs w with
  | (Ok o1, w1) =>
      match opl_frames r cm ys w1 with
      | (Ok o2, w2) => (Ok (o1 ++ o2), w2)
      | (Raise e, w2) => (Raise e, w2)
      end
  | (Raise e, w1) => (Raise e, w1)
  end.
Proof.
  induction xs as [|x xs IH]; intros ys w.
  - cbn. destruct (opl_frames r cm ys w) as [[o2|e] w2]; reflexivity.
  - cbn [app opl_frames].
    destruct (opl_frame r cm x w) as [[o|e] w1]; [|reflexivity].
    rewrite IH.
    destruct (opl_frames r cm xs w1) as [[o1|e] w1']; [|reflexivity].
    destruct (opl_frames r cm ys w1') as [[o2|e] w2]; reflexivity.
Qed.

Lemma grey2color_raise frame e :
  grey2color frame = Raise e -> e = ValueError "Input frame is not a grey frame.".
Proof.
  rewrite grey2color_eq. destruct (Np.ndim frame =? 2); [discriminate|].
  intros E. now inversion E.
Qed.

Lemma opl_frame_raise r cm frame w e w' :
  opl_frame r cm frame w = (Raise e, w') ->
  (exists msg, e = CvError msg) \/ e = ValueError "Input frame is not a grey frame.".
Proof.
  unfold opl_frame.
  destruct (run r frame (lib w)) as [[[]|msg] s'].
  - cbv zeta. unfold convert_parvo.
    destruct (String.eqb cm "grey").
    + destruct (grey2color (getParvo r s')) as [pf|e1] eqn:Hp.
      * destruct (grey2color (getMagno r s')) as [mf|e2] eqn:Hm; [discriminate|].
        intros E. inversion E; subst. right. exact (grey2color_raise _ _ Hm).
      * intros E. inversion E; subst. right. exact (grey2color_raise _ _ Hp).
    + destruct (grey2color (getMagno r s')) as [mf|e2] eqn:Hm; [discriminate|].
      intros E. inversion E; subst. right. exact (grey2color_raise _ _ Hm).
  - intros E. inversion E; subst. left. eauto.
Qed.

Lemma opl_frames_raise r cm frames : forall w e w',
  opl_frames r cm frames w = (Raise e, w') ->
  (exists msg, e = CvError msg) \/ e = ValueError "Input frame is not a grey frame.".
Proof.
  induction frames as [|frame rest IH]; intros w e w'; cbn [opl_frames].
  - discriminate.
  - destruct (opl_frame r cm frame w) as [[o|e1] w1] eqn:Hstep.
    + destruct (opl_frames r cm rest w1) as [[outs|e2] w2] eqn:Hrest; [discriminate|].
      intros E. inversion E; subst. exact (IH _ _ _ Hrest).
    + intros E. inversion E; subst. exact (opl_frame_raise _ _ _ _ _ _ Hstep).
Qed.


Lemma opl_frame_world r cm cm' frame w :
  snd (opl_frame r cm frame w) = snd (opl_frame r cm' frame w).
Proof.
  unfold opl_frame. destruct (run r frame (lib w)) as [[[]|msg] s']; [|reflexivity].
  cbv zeta.
  destruct (convert_parvo cm (getParvo r s')), (convert_parvo cm' (getParvo r s'));
    destruct (grey2color (getMagno r s')); reflexivity.
Qed.

(** What the log gains from one frame. *)
Lemma opl_frame_calls r cm frame w :
  match opl_frame r cm frame w with
  | (Ok _, w1) => calls w1 = calls w ++ frame_calls r frame
  | (Raise _, w1) =>
      exists evs, calls w1 = calls w ++ evs /\ prefix_of evs (frame_calls r frame)
  end.
Proof.
  unfold opl_frame. destruct (run r frame (lib w)) as [[[]|msg] s'].
  - cbv zeta.
    assert (exists evs, calls w ++ frame_calls r frame = calls w ++ evs /\
                        prefix_of evs (frame_calls r frame)) as Hfull
      by (exists (frame_calls r frame); split; [reflexivity|exists []; apply app_nil_r]).
    destruct (convert_parvo cm (getParvo r s')); [|exact Hfull].
    destruct (grey2color (getMagno r s')); [reflexivity|exact Hfull].
  - exists [CallRun r frame]. split; [reflexivity|].
    exists [CallGetParvo r; CallGetMagno r]. reflexivity.
Qed.

Lemma opl_frames_ok r cm frames : forall w outs w',
  opl_frames r cm frames w = (Ok outs, w') ->
  List.length outs = List.length frames /\
  calls w' = calls w ++ flat_map (frame_calls r) frames.
Proof.
  induction frames as [|frame rest IH]; intros w outs w'; cbn [opl_frames].
  - intros E. inversion E; subst. cbn. now rewrite app_nil_r.
  - pose proof (opl_frame_calls r cm frame w) as Hc.
    destruct (opl_frame r cm frame w) as [[o|e] w1]; [|discriminate].
    destruct (opl_frames r cm rest w1) as [[outs'|e] w2] eqn:Hrest; [|discriminate].
    intros E. inversion E; subst.
    destruct (IH _ _ _ Hrest) as [Hlen Hcalls]. split.
    + cbn. now rewrite Hlen.
    + rewrite Hcalls, Hc. cbn [flat_map]. now rewrite <- app_assoc.
Qed.

Lemma prefix_of_app_l {A} (l evs l' : list A) :
  prefix_of evs l' -> prefix_of (l ++ evs) (l ++ l').
Proof. intros [rest <-]. exists rest. now rewrite <- app_assoc. Qed.

Lemma prefix_of_app_r {A} (evs l l' : list A) :
  prefix_of evs l -> prefix_of evs (l ++ l').
Proof. intros [rest <-]. exists (rest ++ l'). now rewrite app_assoc. Qed.

Lemma opl_frames_calls r cm frames : forall w,
  exists evs,
    calls (snd (opl_frames r cm frames w)) = calls w ++ evs /\
    prefix_of evs (flat_map (frame_calls r) frames).
Proof.
  induction frames as [|frame rest IH]; intros w; cbn [opl_frames flat_map].
  - exists []. split; [now rewrite app_nil_r|exists []; reflexivity].
  - pose proof (opl_frame_calls r cm frame w) as Hc.
    destruct (opl_frame r cm frame w) as [[o|e] w1].
    + destruct (IH w1) as (evs & Hcalls & Hpre).
      exists (frame_calls r frame ++ evs). split.
      * destruct (opl_frames r cm rest w1) as [[outs|e] w2]; cbn [snd] in *;
          rewrite Hcalls, Hc; now rewrite <- app_assoc.
      * now apply prefix_of_app_l.
    + destruct Hc as (evs & Hcalls & Hpre). exists evs. split; [exact Hcalls|].
      now apply prefix_of_app_r.
Qed.

Lemma no_clear_in_prefix evs frames r :
  prefix_of evs (flat_map (frame_calls r) frames) -> filter is_clear evs = [].
Proof.
  assert (filter is_clear (flat_map (frame_calls r) frames) = []) as Hall
    by (induction frames as [|f fs IH]; [reflexivity|cbn; exact IH]).
  intros [rest E].
  rewrite <- E, filter_app in Hall. now apply app_eq_nil in Hall.
Qed.

Lemma len_raise v e : len v = Raise e -> exists msg, e = TypeError msg.
Proof.
  destruct v as [|n|s|a|l|l|l]; cbn; try discriminate;
    try solve [intros E; inversion E; eauto].
  destruct (Np.shape a); [intros E; inversion E; eauto|discriminate].
Qed.

(** X1.  [get_opl_frame] raises in exactly two ways.  Either the library
    rejects the frame: the library's error goes to the caller after the
    one call to [run], and nothing is fetched.  Or the frame was taken and
    a conversion fails, because the magno output is not a grey frame or,
    in color mode ["grey"], the parvo output is not: the exception is the
    [ValueError] of [grey2color], after the three calls.  The flags play
    no part: a magno output that cannot be converted stops the call even
    when only the parvo frame was asked for. *)
Theorem get_opl_frame_raises_iff (r : retina) (frame : value) (gp gm : bool)
    (cm : string) (w : world) (e : exn) (w' : world) :
  get_opl_frame r frame gp gm cm w = (Raise e, w') <->
  (exists msg s',
     run r frame (lib w) = (CvFail msg, s') /\
     e = CvError msg /\
     w' = mk_world s' (calls w ++ [CallRun r frame]))
  \/
  (exists s',
     run r frame (lib w) = (CvOk tt, s') /\
     (Np.ndim (getMagno r s') <> 2 \/
      (cm = "grey" /\ Np.ndim (getParvo r s') <> 2)) /\
     e = ValueError "Input frame is not a grey frame." /\
     w' = mk_world s' (calls w ++ frame_calls r frame)).
Proof.
  destruct (run r frame (lib w)) as [[[]|msg] s'] eqn:Hrun.
  - rewrite (get_opl_frame_run_ok r frame gp gm cm w s' Hrun). cbv zeta.
    unfold convert_parvo. rewrite !grey2color_eq.
    destruct (String.eqb_spec cm "grey") as [Hcm|Hcm];
      destruct (Nat.eqb_spec (Np.ndim (getMagno r s')) 2) as [Hm|Hm];
      try destruct (Nat.eqb_spec (Np.ndim (getParvo r s')) 2) as [Hp|Hp];
      (split;
       [ intros E; inversion E; subst; right; exists s'; repeat split; tauto
       | intros [(msg & s1 & E & _)|(s1 & E & Hbad & -> & ->)];
         [ discriminate
         | inversion E; subst s1; try reflexivity; exfalso; tauto ] ]).
  - rewrite (get_opl_frame_run_fail r frame gp gm cm w msg s' Hrun). split.
    + intros E. inversion E; subst. left. eauto.
    + intros [(msg1 & s1 & E & -> & ->)|(s1 & E & _)]; [|discriminate].
      now inversion E.
Qed.

(** X2.  The flags of [get_opl_frame] only choose what is handed back:
    what is done to the library (its state and the calls made) is the
    same for every choice of flags and of color mode, and for a given
    color mode the call raises the same exception under every choice of
    flags. *)
Theorem get_opl_frame_flags_irrelevant (r : retina) (frame : value)
    (gp gm gp' gm' : bool) (cm cm' : string) (w : world) :
  snd (get_opl_frame r frame gp gm cm w) = snd (get_opl_frame r frame gp' gm' cm' w) /\
  (forall e, fst (get_opl_frame r frame gp gm cm w) = Raise e <->
             fst (get_opl_frame r frame gp' gm' cm w) = Raise e).
Proof.
  rewrite !get_opl_frame_opl. split.
  - pose proof (opl_frame_world r cm cm' frame w) as Hw.
    destruct (opl_frame r cm frame w) as [[o|e] w1],
             (opl_frame r cm' frame w) as [[o'|e'] w1']; exact Hw.
  - intros e. destruct (opl_frame r cm frame w) as [[o|e1] w1]; cbn; split;
      (discriminate || tauto).
Qed.

Lemma get_opl_frames_not_list r frames gp gm gp' gm' reopen cm w :
  isinstance_list frames = false ->
  get_opl_frames r frames gp gm reopen cm w = get_opl_frames r frames gp' gm' reopen cm w.
Proof.
  intros Hno. destruct (len frames) as [n|e] eqn:Hlen.
  - now rewrite !(get_opl_frames_sized_rejected r frames n _ _ reopen cm w Hlen (or_intror Hno)).
  - now rewrite !(get_opl_frames_unsized r frames e _ _ reopen cm w Hlen).
Qed.

(** X3.  The same for [get_opl_frames], on any argument: the flags change
    neither the world the call ends in nor whether, and with which
    exception, it raises. *)
Theorem get_opl_frames_flags_irrelevant (r : retina) (frames : value)
    (gp gm gp' gm' reopen : bool) (cm : string) (w : world) :
  snd (get_opl_frames r frames gp gm reopen cm w) =
    snd (get_opl_frames r frames gp' gm' reopen cm w) /\
  (forall e, fst (get_opl_frames r frames gp gm reopen cm w) = Raise e <->
             fst (get_opl_frames r frames gp' gm' reopen cm w) = Raise e).
Proof.
  destruct (isinstance_list frames) eqn:Hlist.
  - destruct frames as [|n|s|a|l|[|frame rest]|l]; try discriminate.
    + rewrite !(get_opl_frames_sized_rejected r (VList []) 0 _ _ reopen cm w eq_refl
                  (or_introl eq_refl)).
      split; [reflexivity|intros e; split; auto].
    + rewrite !get_opl_frames_opl.
      destruct (opl_frames r cm (frame :: rest) (opened r reopen w)) as [[outs|e1] w1];
        cbn; split; try reflexivity; intros e; split; (discriminate || auto).
  - rewrite (get_opl_frames_not_list r frames gp gm gp' gm' reopen cm w Hlist).
    split; [reflexivity|intros e; split; auto].
Qed.

(** What a non-empty list can make [get_opl_frames] raise. *)
Lemma get_opl_frames_list_raise r frame rest gp gm reopen cm w e w' :
  get_opl_frames r (VList (frame :: rest)) gp gm reopen cm w = (Raise e, w') ->
  (exists msg, e = CvError msg) \/ e = ValueError "Input frame is not a grey frame.".
Proof.
  rewrite get_opl_frames_opl.
  destruct (opl_frames r cm (frame :: rest) (opened r reopen w)) as [[outs|e1] w1] eqn:Hall;
    [discriminate|].
  intros E. inversion E; subst.
  exact (opl_frames_raise r cm _ _ _ _ Hall).
Qed.

(** X4.  On a list, [get_opl_frames] raises nothing but the
    [ValueError] of its own check (exactly for the empty list, and then
    in the world it started in), the [ValueError] of [grey2color], or an
    error of the library.  In particular the accumulators that are bound
    only under their flag are never read unbound, and the subscripts of
    the per-frame result never miss. *)
Theorem get_opl_frames_exceptions (r : retina) (frames : list value)
    (gp gm reopen : bool) (cm : string) (w : world) (e : exn) (w' : world) :
  get_opl_frames r (VList frames) gp gm reopen cm w = (Raise e, w') ->
  (frames = [] /\ e = ValueError "No video frame is entered" /\ w' = w) \/
  (frames <> [] /\
   ((exists msg, e = CvError msg) \/
    e = ValueError "Input frame is not a grey frame.")).
Proof.
  destruct frames as [|frame rest].
  - rewrite (get_opl_frames_sized_rejected r (VList []) 0 gp gm reopen cm w eq_refl
               (or_introl eq_refl)).
    intros E. inversion E; subst. left. auto.
  - intros E. right. split; [discriminate|].
    exact (get_opl_frames_list_raise r frame rest gp gm reopen cm w e w' E).
Qed.

(** X5.  Whatever its outcome, what [get_opl_frames] adds to the call
    log after the optional [clearBuffers] is a beginning of
    [run; getParvo; getMagno] for each frame in input order: no frame is
    skipped, fed twice or fed out of order, and the buffers are not
    cleared again (with [reopen_eye=False], not at all). *)
Theorem get_opl_frames_calls_prefix (r : retina) (frame : value) (rest : list value)
    (gp gm reopen : bool) (cm : string) (w : world) :
  exists evs,
    calls (snd (get_opl_frames r (VList (frame :: rest)) gp gm reopen cm w)) =
      calls (opened r reopen w) ++ evs /\
    prefix_of evs (flat_map (frame_calls r) (frame :: rest)) /\
    filter is_clear evs = [].
Proof.
  rewrite get_opl_frames_opl.
  destruct (opl_frames_calls r cm (frame :: rest) (opened r reopen w))
    as (evs & Hcalls & Hpre).
  exists evs. split; [|split; [exact Hpre|exact (no_clear_in_prefix _ _ _ Hpre)]].
  destruct (opl_frames r cm (frame :: rest) (opened r reopen w)) as [[outs|e] w1];
    exact Hcalls.
Qed.

Lemma get_opl_frames_opl_ne r frames gp gm reopen cm w :
  frames <> [] ->
  get_opl_frames r (VList frames) gp gm reopen cm w =
  match opl_frames r cm frames (opened r reopen w) with
  | (Ok outs, w') => (Ok (collect gp gm outs), w')
  | (Raise e, w') => (Raise e, w')
  end.
Proof.
  destruct frames as [|frame rest]; [congruence|]. intros _.
  apply get_opl_frames_opl.
Qed.

(** X6.  The first frame on which [get_opl_frame] raises ends
    [get_opl_frames]: the exception goes to the caller unchanged, the
    frames before it have been fed to the handle and stay fed (no
    rollback, and their results are lost), the frames after it are never
    fed. *)
Theorem get_opl_frames_stops_at_failure (r : retina) (pre : list value) (bad : value)
    (post : list value) (gp gm reopen : bool) (cm : string) (w : world)
    (outs : list (Np.ndarray * Np.ndarray)) (w1 : world) (e : exn) (w2 : world) :
  processed r cm (opened r reopen w) pre outs w1 ->
  get_opl_frame r bad gp gm cm w1 = (Raise e, w2) ->
  get_opl_frames r (VList (pre ++ bad :: post)) gp gm reopen cm w = (Raise e, w2) /\
  exists evs,
    calls w2 = calls (opened r reopen w) ++ flat_map (frame_calls r) pre ++ evs /\
    prefix_of evs (frame_calls r bad).
Proof.
  intros Hpre Hbad.
  apply processed_opl in Hpre.
  rewrite get_opl_frame_opl in Hbad.
  pose proof (opl_frame_calls r cm bad w1) as Hc.
  destruct (opl_frame r cm bad w1) as [[o|e1] w2'] eqn:Hstep; [discriminate|].
  inversion Hbad; subst. split.
  - rewrite get_opl_frames_opl_ne by (destruct pre; discriminate).
    rewrite opl_frames_app, Hpre. cbn [opl_frames]. now rewrite Hstep.
  - destruct Hc as (evs & Hcalls & Hpfx). exists evs. split; [|exact Hpfx].
    rewrite Hcalls, (proj2 (opl_frames_ok r cm _ _ _ _ Hpre)).
    now rewrite <- app_assoc.
Qed.

Lemma get_opl_frames_ok_inv r frames gp gm reopen cm w v w' :
  get_opl_frames r (VList frames) gp gm reopen cm w = (Ok v, w') ->
  frames <> [] /\
  exists outs,
    opl_frames r cm frames (opened r reopen w) = (Ok outs, w') /\
    v = collect gp gm outs.
Proof.
  destruct frames as [|frame rest].
  - rewrite (get_opl_frames_sized_rejected r (VList []) 0 gp gm reopen cm w eq_refl
               (or_introl eq_refl)). discriminate.
  - rewrite get_opl_frames_opl.
    destruct (opl_frames r cm (frame :: rest) (opened r reopen w)) as [[outs|e1] w1];
      [|discriminate].
    intros E. inversion E; subst. split; [discriminate|]. eauto.
Qed.

(** X7.  Sequences compose.  If [get_opl_frames] returns on [xs], and
    then, without reopening the eye, on [ys], then it returns on
    [xs ++ ys] the concatenation of the two results, in the same final
    world. *)
Theorem get_opl_frames_concat (r : retina) (xs ys : list value)
    (gp gm reopen : bool) (cm : string) (w : world)
    (v1 : value) (w1 : world) (v2 : value) (w2 : world) :
  get_opl_frames r (VList xs) gp gm reopen cm w = (Ok v1, w1) ->
  get_opl_frames r (VList ys) gp gm false cm w1 = (Ok v2, w2) ->
  exists outs1 outs2,
    v1 = collect gp gm outs1 /\
    v2 = collect gp gm outs2 /\
    List.length outs1 = List.length xs /\
    List.length outs2 = List.length ys /\
    get_opl_frames r (VList (xs ++ ys)) gp gm reopen cm w =
      (Ok (collect gp gm (outs1 ++ outs2)), w2).
Proof.
  intros H1 H2.
  apply get_opl_frames_ok_inv in H1 as (Hx & outs1 & H1 & ->).
  apply get_opl_frames_ok_inv in H2 as (Hy & outs2 & H2 & ->).
  cbn [opened] in H2.
  exists outs1, outs2. repeat split.
  - exact (proj1 (opl_frames_ok r cm _ _ _ _ H1)).
  - exact (proj1 (opl_frames_ok r cm _ _ _ _ H2)).
  - rewrite get_opl_frames_opl_ne by (destruct xs; [congruence|discriminate]).
    now rewrite opl_frames_app, H1, H2.
Qed.

(** X8.  On a non-empty list, [reopen_eye=True] is the same as calling
    [clear_buffers] first and then [get_opl_frames] with
    [reopen_eye=False], for every outcome.  On the empty list the two
    differ: the argument check comes before the clearing, so
    [reopen_eye=True] leaves the buffers alone. *)
Theorem clear_then_process (r : retina) (frame : value) (rest : list value)
    (gp gm : bool) (cm : string) (w : world) :
  bind (clear_buffers r)
       (fun _ => get_opl_frames r (VList (frame :: rest)) gp gm false cm) w =
    get_opl_frames r (VList (frame :: rest)) gp gm true cm w /\
  get_opl_frames r (VList []) gp gm true cm w =
    (Raise (ValueError "No video frame is entered"), w) /\
  bind (clear_buffers r) (fun _ => get_opl_frames r (VList []) gp gm false cm) w =
    (Raise (ValueError "No video frame is entered"),
     mk_world (clearBuffers r (lib w)) (calls w ++ [CallClearBuffers r])).
Proof.
  split; [|split; reflexivity].
  unfold bind at 1. cbn [clear_buffers retina_clearBuffers log].
  now rewrite !get_opl_frames_opl.
Qed.

(** X9.  [get_opl_frames] raises its own [ValueError] ("No video frame is
    entered") exactly when its argument has a length and is empty or is
    not a list (a tuple, a string, an array); it then ends in the world
    it started in: nothing is cleared, no frame is fed. *)
Theorem get_opl_frames_check_iff (r : retina) (frames : value)
    (gp gm reopen : bool) (cm : string) (w w' : world) :
  get_opl_frames r frames gp gm reopen cm w =
    (Raise (ValueError "No video frame is entered"), w')
  <->
  w' = w /\ exists n, len frames = Ok n /\ (n = 0 \/ isinstance_list frames = false).
Proof.
  split.
  - destruct (len frames) as [n|e] eqn:Hlen.
    + destruct (Nat.eq_dec n 0) as [->|Hn].
      * rewrite (get_opl_frames_sized_rejected r frames 0 gp gm reopen cm w Hlen
                   (or_introl eq_refl)).
        intros E. inversion E; subst. eauto.
      * destruct (isinstance_list frames) eqn:Hlist.
        -- destruct frames as [|k|s|a|l|[|frame rest]|l]; try discriminate.
           ++ cbn in Hlen. inversion Hlen. congruence.
           ++ intros E.
              destruct (get_opl_frames_list_raise r frame rest gp gm reopen cm w _ _ E)
                as [[msg Hcv]|Hgrey]; discriminate.
        -- rewrite (get_opl_frames_sized_rejected r frames n gp gm reopen cm w Hlen
                      (or_intror Hlist)).
           intros E. inversion E; subst. eauto.
    + rewrite (get_opl_frames_unsized r frames e gp gm reopen cm w Hlen).
      destruct (len_raise _ _ Hlen) as [msg ->]. discriminate.
  - intros (-> & n & Hlen & Hbad).
    exact (get_opl_frames_sized_rejected r frames n gp gm reopen cm w Hlen Hbad).
Qed.

(** X13.  When [get_opl_frames] returns, it returns one result per input
    frame; every magno frame has three axes, and in color mode ["grey"]
    every parvo frame has three axes too. *)
Theorem get_opl_frames_three_axes (r : retina) (frames : list value)
    (gp gm reopen : bool) (cm : string) (w : world) (v : value) (w' : world) :
  get_opl_frames r (VList frames) gp gm reopen cm w = (Ok v, w') ->
  exists outs,
    v = collect gp gm outs /\
    List.length outs = List.length frames /\
    Forall (fun o => Np.ndim (snd o) = 3 /\ (cm = "grey" -> Np.ndim (fst o) = 3)) outs.
Proof.
  intros H. apply get_opl_frames_ok_inv in H as (_ & outs & Hall & ->).
  exists outs. split; [reflexivity|].
  split; [exact (proj1 (opl_frames_ok r cm _ _ _ _ Hall))|].
  revert Hall. generalize (opened r reopen w) as w0. revert outs w'.
  induction frames as [|frame rest IH]; intros outs w' w0; cbn [opl_frames].
  - intros E. inversion E. constructor.
  - unfold opl_frame.
    destruct (run r frame (lib w0)) as [[[]|msg] s']; [|discriminate]. cbv zeta.
    destruct (convert_parvo cm (getParvo r s')) as [pf|e1] eqn:Hp; [|discriminate].
    destruct (grey2color (getMagno r s')) as [mf|e2] eqn:Hm; [|discriminate].
    match goal with
    | |- context [opl_frames r cm rest ?w1] =>
        destruct (opl_frames r cm rest w1) as [[outs'|e3] w2] eqn:Hrest; [|discriminate]
    end.
    intros E. inversion E; subst. constructor; [|exact (IH _ _ _ Hrest)].
    cbn [fst snd]. split; [exact (proj2 (grey2color_ok_ndim _ _ Hm))|].
    intros ->. unfold convert_parvo in Hp. cbn in Hp.
    exact (proj2 (grey2color_ok_ndim _ _ Hp)).
Qed.


End Outcomes.

(* ================================================================== *)
(** ** The wrapper on the echo library *)

Import Echo.

Lemma get_opl_frame_color_policy_witness :
  run tt (VArray g1) (lib w0) = (CvOk tt, g1) /\
  forall pf mf : Np.ndarray,
    (forall gp gm,
       get_opl_frame tt (VArray g1) gp gm "color" w0 =
         (Ok (dispatch gp gm pf mf), mk_world g1 (calls w0 ++ frame_calls tt (VArray g1))))
    <->
    grey2color (getMagno tt g1) = Ok mf /\
    Np.ndim mf = 3 /\
    pf = getParvo tt g1.
Proof.
  split; [reflexivity|].
  exact (get_opl_frame_color_policy (L := echo) tt (VArray g1) "color" w0 g1 eq_refl).
Defined.

Lemma get_opl_frame_return_shape_witness :
  accepts tt "grey" [VArray g1] (lib w0) = true /\
  exists s' pf mf,
    run tt (VArray g1) (lib w0) = (CvOk tt, s') /\
    convert_parvo "grey" (getParvo tt s') = Ok pf /\
    grey2color (getMagno tt s') = Ok mf /\
    get_opl_frame tt (VArray g1) true true "grey" w0 =
      (Ok (VTuple [VArray pf; VArray mf]), mk_world s' (calls w0 ++ frame_calls tt (VArray g1))) /\
    get_opl_frame tt (VArray g1) true false "grey" w0 =
      (Ok (VArray pf), mk_world s' (calls w0 ++ frame_calls tt (VArray g1))) /\
    get_opl_frame tt (VArray g1) false true "grey" w0 =
      (Ok (VArray mf), mk_world s' (calls w0 ++ frame_calls tt (VArray g1))).
Proof.
  split; [reflexivity|].
  apply (get_opl_frame_return_shape (L := echo) tt (VArray g1) "grey" w0). reflexivity.
Defined.

Lemma get_opl_frames_in_order_witness :
  [VArray g1; VArray g2] <> [] /\
  accepts tt "grey" [VArray g1; VArray g2] (lib (opened tt true w0)) = true /\
  exists outs w',
    processed tt "grey" (opened tt true w0) [VArray g1; VArray g2] outs w' /\
    List.length outs = 2 /\
    len (parvo_list outs) = Ok 2 /\
    len (magno_list outs) = Ok 2 /\
    calls w' = calls (opened tt true w0) ++ flat_map (frame_calls tt) [VArray g1; VArray g2] /\
    get_opl_frames tt (VList [VArray g1; VArray g2]) true true true "grey" w0 =
      (Ok (VTuple [parvo_list outs; magno_list outs]), w') /\
    get_opl_frames tt (VList [VArray g1; VArray g2]) true false true "grey" w0 =
      (Ok (parvo_list outs), w') /\
    get_opl_frames tt (VList [VArray g1; VArray g2]) false true true "grey" w0 =
      (Ok (magno_list outs), w').
Proof.
  split; [discriminate|]. split; [reflexivity|].
  apply (get_opl_frames_in_order (L := echo) tt [VArray g1; VArray g2] true "grey" w0);
    [discriminate|reflexivity].
Defined.

Lemma init_retina_reversed_size_witness :
  (0 < 4)%Z /\ (0 < 6)%Z /\
  init_retina (VTuple [VInt 4; VInt 6]) w0 =
    (Ok tt, mk_world (zeros [4; 6]) [CallCreateRetina (VTuple [VInt 6; VInt 4])]).
Proof.
  split; [reflexivity|]. split; [reflexivity|].
  apply (proj1 (proj2 (proj2
           (init_retina_reversed_size (L := echo) 4 6 w0 eq_refl eq_refl)))).
  reflexivity.
Defined.

Lemma no_channel_requested_witness :
  accepts tt "color" [VArray g1] (lib w0) = true /\
  accepts tt "color" [VArray g1; VArray g2] (lib (opened tt true w0)) = true /\
  (exists s',
     run tt (VArray g1) (lib w0) = (CvOk tt, s') /\
     get_opl_frame tt (VArray g1) false false "color" w0 =
       (Ok VNone, mk_world s' (calls w0 ++ frame_calls tt (VArray g1)))) /\
  (exists w',
     get_opl_frames tt (VList [VArray g1; VArray g2]) false false true "color" w0 =
       (Ok VNone, w') /\
     calls w' =
       calls (opened tt true w0) ++ flat_map (frame_calls tt) [VArray g1; VArray g2]).
Proof.
  split; [reflexivity|]. split; [reflexivity|].
  apply (no_channel_requested (L := echo) tt (VArray g1) [VArray g2] true "color" w0); reflexivity.
Defined.

(** The scenario of the specification: a handle configured for [(4, 4)],
    three grey 4x4 frames, both channels, color mode ["grey"]; the result
    is a pair of lists of three frames of shape [(4, 4, 3)]. *)
Example end_to_end :
  match init_retina (VTuple [VInt 4; VInt 4]) w0 with
  | (Ok r, w) =>
      match get_opl_frames r (VList [flat [4; 4] 10; flat [4; 4] 20; flat [4; 4] 30])
              true true true "grey" w with
      | (Ok v, _) => pair_of_lists 3 [4; 4; 3] v
      | (Raise _, _) => false
      end
  | (Raise _, _) => false
  end = true.
Proof. vm_compute. reflexivity. Qed.

(** Frames in color, color mode ["color"]: the parvo frame comes back as
    the library produced it, the magno frame is duplicated; asking for the
    conversion of an output that already has three axes raises. *)
Example color_frame :
  fst (get_opl_frame tt (VArray bgr) true true "color" w0) =
    Ok (VTuple [VArray bgr; VArray (Np.mk_ndarray [1; 2; 3] [1; 1; 1; 4; 4; 4]%Z)]) /\
  fst (get_opl_frame tt (VArray bgr) true true "grey" w0) =
    Raise (ValueError "Input frame is not a grey frame.").
Proof. split; reflexivity. Qed.

(** *** The further properties on the echo library *)

(** A grey frame, then a frame in color, in color mode ["grey"]: the
    second frame stops the run. *)
Lemma get_opl_frames_exceptions_witness :
  get_opl_frames tt (VList [VArray g1; VArray bgr]) true true true "grey" w0 =
    (Raise (ValueError "Input frame is not a grey frame."),
     snd (get_opl_frames tt (VList [VArray g1; VArray bgr]) true true true "grey" w0)) /\
  (([VArray g1; VArray bgr] = [] /\
    ValueError "Input frame is not a grey frame." = ValueError "No video frame is entered" /\
    snd (get_opl_frames tt (VList [VArray g1; VArray bgr]) true true true "grey" w0) = w0) \/
   ([VArray g1; VArray bgr] <> [] /\
    ((exists msg, ValueError "Input frame is not a grey frame." = CvError msg) \/
     ValueError "Input frame is not a grey frame." =
       ValueError "Input frame is not a grey frame."))).
Proof.
  split; [reflexivity|].
  apply (get_opl_frames_exceptions (L := echo) tt [VArray g1; VArray bgr]
           true true true "grey" w0).
  reflexivity.
Defined.

Lemma get_opl_frames_stops_at_failure_witness :
  processed tt "grey" (opened tt true w0) [VArray g1] [(c1, c1)]
    (mk_world g1 (calls (opened tt true w0) ++ frame_calls tt (VArray g1))) /\
  get_opl_frame tt (VArray bgr) true true "grey"
      (mk_world g1 (calls (opened tt true w0) ++ frame_calls tt (VArray g1))) =
    (Raise (ValueError "Input frame is not a grey frame."),
     mk_world bgr (calls (opened tt true w0) ++ frame_calls tt (VArray g1)
                     ++ frame_calls tt (VArray bgr))) /\
  get_opl_frames tt (VList ([VArray g1] ++ VArray bgr :: [VArray g2]))
      true true true "grey" w0 =
    (Raise (ValueError "Input frame is not a grey frame."),
     mk_world bgr (calls (opened tt true w0) ++ frame_calls tt (VArray g1)
                     ++ frame_calls tt (VArray bgr))).
Proof.
  assert (processed tt "grey" (opened tt true w0) [VArray g1] [(c1, c1)]
            (mk_world g1 (calls (opened tt true w0) ++ frame_calls tt (VArray g1))))
    as Hpre by (apply processed_opl; reflexivity).
  split; [exact Hpre|]. split; [reflexivity|].
  exact (proj1 (get_opl_frames_stops_at_failure (L := echo) tt [VArray g1] (VArray bgr)
                  [VArray g2] true true true "grey" w0 _ _ _ _ Hpre eq_refl)).
Defined.

Lemma get_opl_frames_concat_witness :
  get_opl_frames tt (VList [VArray g1]) true true true "color" w0 =
    (Ok (collect true true [(g1, c1)]),
     mk_world g1 (calls (opened tt true w0) ++ frame_calls tt (VArray g1))) /\
  get_opl_frames tt (VList [VArray g2]) true true false "color"
      (mk_world g1 (calls (opened tt true w0) ++ frame_calls tt (VArray g1))) =
    (Ok (collect true true [(g2, c2)]),
     mk_world g2 (calls (opened tt true w0) ++ frame_calls tt (VArray g1)
                    ++ frame_calls tt (VArray g2))) /\
  exists outs1 outs2,
    collect true true [(g1, c1)] = collect true true outs1 /\
    collect true true [(g2, c2)] = collect true true outs2 /\
    List.length outs1 = 1 /\
    List.length outs2 = 1 /\
    get_opl_frames tt (VList ([VArray g1] ++ [VArray g2])) true true true "color" w0 =
      (Ok (collect true true (outs1 ++ outs2)),
       mk_world g2 (calls (opened tt true w0) ++ frame_calls tt (VArray g1)
                      ++ frame_calls tt (VArray g2))).
Proof.
  assert (get_opl_frames tt (VList [VArray g1]) true true true "color" w0 =
            (Ok (collect true true [(g1, c1)]),
             mk_world g1 (calls (opened tt true w0) ++ frame_calls tt (VArray g1))))
    as H1 by reflexivity.
  assert (get_opl_frames tt (VList [VArray g2]) true true false "color"
            (mk_world g1 (calls (opened tt true w0) ++ frame_calls tt (VArray g1))) =
            (Ok (collect true true [(g2, c2)]),
             mk_world g2 (calls (opened tt true w0) ++ frame_calls tt (VArray g1)
                            ++ frame_calls tt (VArray g2))))
    as H2 by reflexivity.
  split; [exact H1|]. split; [exact H2|].
  exact (get_opl_frames_concat (L := echo) tt [VArray g1] [VArray g2]
           true true true "color" w0 _ _ _ _ H1 H2).
Defined.

Lemma grey2color_not_twice_witness :
  grey2color g1 = Ok c1 /\
  grey2color c1 =
    Raise (ValueError "Input frame is not a grey frame.").
Proof.
  split; [reflexivity|].
  apply (grey2color_not_twice g1). reflexivity.
Defined.

Lemma grey2color_injective_witness :
  Np.wf g1 /\
  grey2color g1 = Ok c1 /\
  g1 = g1.
Proof.
  split; [reflexivity|]. split; [reflexivity|].
  apply (grey2color_injective g1 g1
           c1);
    reflexivity.
Defined.

Lemma grey2color_same_values_witness :
  Np.wf g2 /\
  grey2color g2 = Ok c2 /\
  List.length (Np.data c2) = 3 * List.length (Np.data g2) /\
  forall x, In x (Np.data c2) <-> In x (Np.data g2).
Proof.
  split; [reflexivity|]. split; [reflexivity|].
  apply (grey2color_same_values g2
           c2);
    reflexivity.
Defined.

Lemma get_opl_frames_three_axes_witness :
  get_opl_frames tt (VList [VArray g1; VArray g2]) true true true "grey" w0 =
    (Ok (collect true true [(c1, c1); (c2, c2)]),
     mk_world g2 (calls (opened tt true w0)
                    ++ flat_map (frame_calls tt) [VArray g1; VArray g2])) /\
  exists outs,
    collect true true [(c1, c1); (c2, c2)] = collect true true outs /\
    List.length outs = 2 /\
    Forall (fun o => Np.ndim (snd o) = 3 /\ ("grey" = "grey" -> Np.ndim (fst o) = 3)) outs.
Proof.
  assert (get_opl_frames tt (VList [VArray g1; VArray g2]) true true true "grey" w0 =
            (Ok (collect true true [(c1, c1); (c2, c2)]),
             mk_world g2 (calls (opened tt true w0)
                            ++ flat_map (frame_calls tt) [VArray g1; VArray g2])))
    as H by reflexivity.
  split; [exact H|].
  exact (get_opl_frames_three_axes (L := echo) tt [VArray g1; VArray g2]
           true true true "grey" w0 _ _ H).
Defined.

